(** * In-memory order store: shallow embedding and verification

    The embedded program is the [InMemoryService] of the order API: the
    idempotent [Create], the reads [Get] and [List], the status-transition
    entry point [UpdatedStatus] and the helpers they rely on.

    Conventions of the embedding:
    - Go [string] is [string]; the empty string is [EmptyString].
    - [int64] and [int] (64 bits on the supported platforms) are [Z] with
      the two's-complement wrap-around written out ([int64_wrap]).
    - [time.Time] is the instant as a [Z] count of nanoseconds since the
      zero time, so the zero value is [0]; every stored time went through
      [UTC()], which drops the monotonic reading, hence [After]/[Before]
      compare instants.
    - Go maps are [gmap]; a nil map is [None].
    - [newID()] and [time.Now()] are oracles: their results are inputs.
    - A call runs atomically: no other goroutine interleaves with it. *)

From Stdlib Require Import ZArith Lia Sorting.Sorted.
From stdpp Require Import gmap strings list fin_maps sorting.

Local Open Scope Z_scope.

(** ** Machine integers *)

Definition int64_wrap (z : Z) : Z := (z + 2 ^ 63) `mod` 2 ^ 64 - 2 ^ 63.

Definition int64_range (z : Z) : Prop := - 2 ^ 63 ≤ z < 2 ^ 63.

(** [int] is 64 bits wide; [int64(q)] of an [int] keeps the value. *)
Definition int_wrap (z : Z) : Z := int64_wrap z.
Definition int64_of_int (q : Z) : Z := q.

(** ** Data model (model.go) *)

Definition Time := Z.
Definition zeroTime : Time := 0.

Definition After (t u : Time) : bool := bool_decide (u < t).
Definition Before (t u : Time) : bool := bool_decide (t < u).

Definition OrderStatus := string.

Definition StatusPending : OrderStatus := "PENDING".
Definition StatusConfirmed : OrderStatus := "CONFIRMED".
Definition StatusShipped : OrderStatus := "SHIPPED".
Definition StatusDelivered : OrderStatus := "DELIVERED".
Definition StatusCanceled : OrderStatus := "CANCELED".

Record OrderLine := mkLine {
  ProductID : string;
  Quantity : Z;
  UnitPriceCents : Z;
  LineTotalCents : Z
}.

Record Order := mkOrder {
  ID : string;
  CustomerID : string;
  Currency : string;
  Lines : list OrderLine;
  Attributes : option (gmap string string);
  TotalCents : Z;
  Status : OrderStatus;
  Version : Z;
  CreatedAt : Time;
  UpdatedAt : Time;
  DeletedAt : option Time
}.

Record ListOptions := mkOpts {
  optStatus : option OrderStatus;
  optCustomerID : option string;
  optCreateFrom : option Time;
  optCreateTo : option Time;
  Page : Z;
  PageSize : Z
}.

Record ListResult := mkResult {
  Items : list Order;
  resPage : Z;
  resPageSize : Z;
  TotalItems : Z;
  TotalPages : Z
}.

(** Zero values: [OrderLine{}], [Order{}] and [ListResult[Order]{}]. *)
Definition zeroLine : OrderLine := mkLine EmptyString 0 0 0.

Definition zeroOrder : Order :=
  mkOrder EmptyString EmptyString EmptyString [] None 0 EmptyString 0
          zeroTime zeroTime None.

Definition zeroResult : ListResult := mkResult [] 0 0 0 0.

(** ** Errors and contexts *)

Inductive ctxError := Canceled | DeadlineExceeded.

Inductive error :=
  | ErrNotFound
  | ErrConflict
  | ErrInvalidInput
  | ErrInvalidState
  | ErrIdempotency
  | ErrContext (e : ctxError).

(** A [context.Context], as far as the store looks at it: [Err()] is nil
    while the context is live and the cancellation cause afterwards; the
    [Done()] channel is closed exactly when [Err()] is non-nil. *)
Record Context := mkCtx { ctxCause : option ctxError }.

Definition ctx_Err (ctx : Context) : option error := ErrContext <$> ctxCause ctx.

Definition ctx_Done (ctx : Context) : bool :=
  match ctxCause ctx with Some _ => true | None => false end.

Definition ctxErr (ctx : Context) : option error :=
  if ctx_Done ctx then ctx_Err ctx else None.

Definition background : Context := mkCtx None.

(** ** The store *)

Record InMemoryService := mkService {
  orders : gmap string Order;
  idempo : gmap string string
}.

Definition NewInMemoryService : InMemoryService := mkService ∅ ∅.

(** ** Helper functions *)

(** [make([]OrderLine, n)] and the built-in [copy(dst, src)], which
    overwrites the first [min (len dst) (len src)] elements of [dst]. *)
Definition make_lines (n : nat) : list OrderLine := replicate n zeroLine.

Definition copy_slice {A} (dst src : list A) : list A :=
  take (length dst) src ++ drop (length src) dst.

Definition cloneMap (m : option (gmap string string)) : option (gmap string string) :=
  match m with
  | None => None
  | Some m => Some (map_fold (λ k v cp, <[k:=v]> cp) ∅ m)
  end.

Definition cloneOrder (o : Order) : Order :=
  let lines := copy_slice (make_lines (length (Lines o))) (Lines o) in
  let attrs := cloneMap (Attributes o) in
  let del := match DeletedAt o with Some t => Some t | None => None end in
  mkOrder (ID o) (CustomerID o) (Currency o) lines attrs (TotalCents o)
          (Status o) (Version o) (CreatedAt o) (UpdatedAt o) del.

Definition isTransitionAllowed (from to : OrderStatus) : bool :=
  if String.eqb from StatusPending then
    String.eqb to StatusConfirmed || String.eqb to StatusCanceled
  else if String.eqb from StatusConfirmed then
    String.eqb to StatusShipped || String.eqb to StatusCanceled
  else if String.eqb from StatusShipped then
    String.eqb to StatusDelivered
  else false.

Definition isValidStatus (s : OrderStatus) : bool :=
  String.eqb s StatusPending || String.eqb s StatusConfirmed
  || String.eqb s StatusShipped || String.eqb s StatusDelivered
  || String.eqb s StatusCanceled.

(** ** Create *)

Definition isEmpty (s : string) : bool := String.eqb s EmptyString.

(** The loop over [o.Lines]: validates each line, recomputes its total and
    accumulates the order total; [None] is the early return with
    [ErrInvalidInput]. *)
Fixpoint createLines (lines : list OrderLine) (totalCents : Z)
  : option (list OrderLine * Z) :=
  match lines with
  | [] => Some ([], totalCents)
  | line :: rest =>
      if (Quantity line <=? 0) || (UnitPriceCents line <? 0) then None
      else
        let lt := int64_wrap (int64_of_int (Quantity line) * UnitPriceCents line) in
        let line' := mkLine (ProductID line) (Quantity line) (UnitPriceCents line) lt in
        match createLines rest (int64_wrap (totalCents + lt)) with
        | Some (ls, t) => Some (line' :: ls, t)
        | None => None
        end
  end.

(** The idempotency lookup (done once under the read lock, once more under
    the write lock): [None] when the key is not indexed. *)
Definition lookupIdempotent (s : InMemoryService) (idempotencyKey : string)
  : option (Order * bool * option error) :=
  match idempo s !! idempotencyKey with
  | Some orderID =>
      match orders s !! orderID with
      | Some existing => Some (cloneOrder existing, true, None)
      | None => Some (zeroOrder, false, Some ErrIdempotency)
      end
  | None => None
  end.

(** Steps 2 and 3: validation and construction of the candidate. *)
Definition buildOrder (now : Time) (freshID : string) (o : Order)
  : option Order :=
  if isEmpty (CustomerID o) || isEmpty (Currency o) || (length (Lines o) =? 0)%nat
  then None
  else
    match createLines (Lines o) 0 with
    | None => None
    | Some (lines, totalCents) =>
        Some (mkOrder freshID (CustomerID o) (Currency o) lines
                      (cloneMap (Attributes o)) totalCents StatusPending 1
                      now now None)
    end.

(** Step 4: the critical section. *)
Definition commitOrder (s : InMemoryService) (newOrder : Order)
    (idempotencyKey : string)
  : (Order * bool * option error) * InMemoryService :=
  match (if isEmpty idempotencyKey then None else lookupIdempotent s idempotencyKey) with
  | Some r => (r, s)
  | None =>
      let orders' := <[ID newOrder := newOrder]> (orders s) in
      let idempo' :=
        if isEmpty idempotencyKey then idempo s
        else <[idempotencyKey := ID newOrder]> (idempo s) in
      ((cloneOrder newOrder, false, None), mkService orders' idempo')
  end.

Definition Create (now : Time) (freshID : string) (ctx : Context)
    (s : InMemoryService) (o : Order) (idempotencyKey : string)
  : (Order * bool * option error) * InMemoryService :=
  match ctx_Err ctx with
  | Some err => ((zeroOrder, false, Some err), s)
  | None =>
      match (if isEmpty idempotencyKey then None else lookupIdempotent s idempotencyKey) with
      | Some r => (r, s)
      | None =>
          match buildOrder now freshID o with
          | None => ((zeroOrder, false, Some ErrInvalidInput), s)
          | Some newOrder => commitOrder s newOrder idempotencyKey
          end
      end
  end.

(** ** Get *)

Definition Get (ctx : Context) (s : InMemoryService) (id : string)
    (includeDeleted : bool) : Order * option error :=
  match ctxErr ctx with
  | Some err => (zeroOrder, Some err)
  | None =>
      match orders s !! id with
      | None => (zeroOrder, Some ErrNotFound)
      | Some order =>
          if bool_decide (DeletedAt order ≠ None) && negb includeDeleted
          then (zeroOrder, Some ErrNotFound)
          else (cloneOrder order, None)
      end
  end.

(** ** UpdatedStatus *)

Definition UpdatedStatus (ctx : Context) (s : InMemoryService) (id : string)
    (newStatus : OrderStatus) (expectedVersion : option Z)
  : (Order * option error) * InMemoryService :=
  ((zeroOrder, None), s).

(** ** List *)

(** A call either returns or panics (a slice expression out of range). *)
Inductive outcome (A : Type) :=
  | Returned (a : A)
  | Panicked.
Arguments Returned {A} a.
Arguments Panicked {A}.

(** The filter of step 2: [true] when the order is appended to [filtered]. *)
Definition listKeeps (opts : ListOptions) (order : Order) : bool :=
  if bool_decide (DeletedAt order ≠ None) then false
  else if match optStatus opts with
          | Some st => negb (String.eqb (Status order) st)
          | None => false
          end then false
  else if match optCustomerID opts with
          | Some c => negb (String.eqb (CustomerID order) c)
          | None => false
          end then false
  else if match optCreateFrom opts with
          | Some t => Before (CreatedAt order) t
          | None => false
          end then false
  else if match optCreateTo opts with
          | Some t => After (CreatedAt order) t
          | None => false
          end then false
  else true.

(** The less function handed to [sort.Slice]. *)
Definition createdAfter (a b : Order) : bool := After (CreatedAt a) (CreatedAt b).

(** What [sort.Slice] asks of its less function. *)
Record StrictWeakOrder {A} (less : A → A → bool) : Prop := {
  less_asym : ∀ a b, less a b = true → less b a = false;
  less_negtrans : ∀ a b c, less a b = false → less b c = false → less a c = false
}.

(** A list is in sorted order for [less] when no later element must sort
    before an earlier one. *)
Definition sortedBy {A} (less : A → A → bool) (l : list A) : Prop :=
  StronglySorted (λ a b, less b a = false) l.

(** The insertion sort that [sort.Slice] runs on short slices: each
    element moves left while it is less than its left neighbour.  The
    sorted prefix is kept reversed. *)
Fixpoint insertBack {A} (less : A → A → bool) (x : A) (rp : list A) : list A :=
  match rp with
  | [] => [x]
  | y :: ys => if less x y then y :: insertBack less x ys else x :: rp
  end.

Definition insertionSort {A} (less : A → A → bool) (l : list A) : list A :=
  reverse (foldl (λ rp x, insertBack less x rp) [] l).

Definition normPage (p : Z) : Z := if p <=? 0 then 1 else p.
Definition normPageSize (p : Z) : Z := if p <=? 0 then 10 else p.

(** Steps 4 and 5 on the sorted slice. *)
Definition paginate (filtered : list Order) (opts : ListOptions)
  : outcome (ListResult * option error) :=
  let totalItems := Z.of_nat (length filtered) in
  let page := normPage (Page opts) in
  let pageSize := normPageSize (PageSize opts) in
  let start := int_wrap ((page - 1) * pageSize) in
  let end_ := int_wrap (start + pageSize) in
  if start >=? totalItems then
    Returned (mkResult [] 0 0 totalItems 0, None)
  else
    let end_ := if end_ >? totalItems then totalItems else end_ in
    if (start <? 0) || (end_ <? start) then Panicked
    else
      let pageItems := take (Z.to_nat (end_ - start)) (drop (Z.to_nat start) filtered) in
      Returned
        (mkResult (map cloneOrder pageItems) page pageSize totalItems
           (int_wrap (Z.quot (int_wrap (int_wrap (totalItems + pageSize) - 1)) pageSize)),
         None).

Section Runtime.

(** The order in which [range s.orders] yields the values: unspecified,
    some enumeration of the map. *)
Variable rangeOrders : gmap string Order → list Order.

(** [sort.Slice]: sorts by [less], not necessarily stably. *)
Variable sortSlice : (Order → Order → bool) → list Order → list Order.

Definition List (ctx : Context) (s : InMemoryService) (opts : ListOptions)
  : outcome (ListResult * option error) :=
  match ctxErr ctx with
  | Some err => Returned (zeroResult, Some err)
  | None =>
      let allOrders := rangeOrders (orders s) in
      let filtered := List.filter (listKeeps opts) allOrders in
      let filtered := sortSlice createdAfter filtered in
      paginate filtered opts
  end.

End Runtime.

(** The contracts of the two runtime services. *)
Definition RangeSpec (rangeOrders : gmap string Order → list Order) : Prop :=
  ∀ m, rangeOrders m ≡ₚ (map_to_list m).*2.

Definition SortSliceSpec
    (sortSlice : (Order → Order → bool) → list Order → list Order) : Prop :=
  ∀ less l, StrictWeakOrder less →
    sortSlice less l ≡ₚ l ∧ sortedBy less (sortSlice less l).

(** One admissible runtime: ranging in the order of [map_to_list], or in
    the opposite order, and sorting by insertion. *)
Definition rangeAscending (m : gmap string Order) : list Order := (map_to_list m).*2.
Definition rangeDescending (m : gmap string Order) : list Order :=
  reverse (map_to_list m).*2.

(** The items of a [List] call, none when it panicked. *)
Definition listItems (r : outcome (ListResult * option error)) : list Order :=
  match r with
  | Returned (res, _) => Items res
  | Panicked => []
  end.


(** ** Vocabulary of the statements *)

(** A valid order skeleton: customer and currency are non-empty, there is
    at least one line, every line has a positive quantity and a
    non-negative unit price. *)
Definition validLine (l : OrderLine) : Prop := 0 < Quantity l ∧ 0 ≤ UnitPriceCents l.

Definition validSkeleton (o : Order) : Prop :=
  CustomerID o ≠ EmptyString ∧ Currency o ≠ EmptyString ∧ Lines o ≠ [] ∧
  Forall validLine (Lines o).

(** The idempotency key, if one is given, is not in the index. *)
Definition keyUnused (s : InMemoryService) (key : string) : Prop :=
  key = EmptyString ∨ idempo s !! key = None.

(** A line with its total recomputed in [int64] arithmetic, whatever total
    the caller supplied. *)
Definition recomputed (l : OrderLine) : OrderLine :=
  mkLine (ProductID l) (Quantity l) (UnitPriceCents l)
         (int64_wrap (Quantity l * UnitPriceCents l)).

Definition sumLineTotals (ls : list OrderLine) : Z :=
  foldr (λ l acc, LineTotalCents l + acc) 0 ls.

(** The exact, unbounded sum of quantity times unit price. *)
Definition exactTotal (ls : list OrderLine) : Z :=
  foldr (λ l acc, Quantity l * UnitPriceCents l + acc) 0 ls.

(** A skeleton that breaks a validation rule. *)
Definition invalidSkeleton (o : Order) : Prop :=
  CustomerID o = EmptyString ∨ Currency o = EmptyString ∨ Lines o = [] ∨
  Exists (λ l, Quantity l ≤ 0 ∨ UnitPriceCents l < 0) (Lines o).

(** The order the claim about ties asks for: newer first, and among equal
    creation times the smaller id first (Go compares strings bytewise). *)
Definition newestThenID (a b : Order) : Prop :=
  CreatedAt b < CreatedAt a ∨
  (CreatedAt a = CreatedAt b ∧ String.ltb (ID a) (ID b) = true).

(** Newest first, saying nothing about ties. *)
Definition newestFirst (a b : Order) : Prop := CreatedAt b ≤ CreatedAt a.

(** ceil(a / b) for a positive divisor. *)
Definition ceilDiv (a b : Z) : Z := (a + b - 1) `div` b.

(** The edges of the status state machine. *)
Definition allowedEdge (from to : OrderStatus) : Prop :=
  (from = StatusPending ∧ to = StatusConfirmed) ∨
  (from = StatusPending ∧ to = StatusCanceled) ∨
  (from = StatusConfirmed ∧ to = StatusShipped) ∨
  (from = StatusConfirmed ∧ to = StatusCanceled) ∨
  (from = StatusShipped ∧ to = StatusDelivered).


(** ** Results of a Create call *)

Definition createdOrder (r : (Order * bool * option error) * InMemoryService) : Order :=
  r.1.1.1.
Definition createReused (r : (Order * bool * option error) * InMemoryService) : bool :=
  r.1.1.2.
Definition createErr (r : (Order * bool * option error) * InMemoryService) : option error :=
  r.1.2.
Definition createStore (r : (Order * bool * option error) * InMemoryService)
  : InMemoryService := r.2.

(** ** Stores that calls can produce *)

(** The stores reached from a new service by calls of the two methods that
    return a store. *)
Inductive reachable : InMemoryService → Prop :=
  | reach_new : reachable NewInMemoryService
  | reach_Create now freshID ctx s o key :
      reachable s → reachable (Create now freshID ctx s o key).2
  | reach_UpdatedStatus ctx s id newStatus expectedVersion :
      reachable s → reachable (UpdatedStatus ctx s id newStatus expectedVersion).2.

(** Every indexed idempotency key resolves to a stored order. *)
Definition indexConsistent (s : InMemoryService) : Prop :=
  ∀ k id, idempo s !! k = Some id → is_Some (orders s !! id).

(** What holds of an order stored under [id]. *)
Definition wellFormedOrder (id : string) (o : Order) : Prop :=
  ID o = id ∧
  CustomerID o ≠ EmptyString ∧ Currency o ≠ EmptyString ∧ Lines o ≠ [] ∧
  Forall (λ l, validLine l ∧
               LineTotalCents l = int64_wrap (Quantity l * UnitPriceCents l))
         (Lines o) ∧
  TotalCents o = int64_wrap (sumLineTotals (Lines o)) ∧
  Status o = StatusPending ∧ Version o = 1 ∧
  UpdatedAt o = CreatedAt o ∧ DeletedAt o = None.

Definition storeWellFormed (s : InMemoryService) : Prop :=
  ∀ id o, orders s !! id = Some o → wellFormedOrder id o.

(** ** Paths of the state machine *)

(** A sequence of statuses in which each step is an allowed transition. *)
Fixpoint transitionChain (l : list OrderStatus) : Prop :=
  match l with
  | a :: tl =>
      match tl with
      | b :: _ => isTransitionAllowed a b = true ∧ transitionChain tl
      | [] => True
      end
  | [] => True
  end.

Definition statusRank (s : OrderStatus) : nat :=
  if String.eqb s StatusPending then 0
  else if String.eqb s StatusConfirmed then 1
  else if String.eqb s StatusShipped then 2
  else 3.

Definition knownStatus (s : OrderStatus) : Prop :=
  s = StatusPending ∨ s = StatusConfirmed ∨ s = StatusShipped ∨
  s = StatusDelivered ∨ s = StatusCanceled.

(** ** Vocabulary for List *)

(** The filters of a List call, as conditions on an order. *)
Definition matchesFilters (opts : ListOptions) (o : Order) : Prop :=
  DeletedAt o = None ∧
  (∀ st, optStatus opts = Some st → Status o = st) ∧
  (∀ c, optCustomerID opts = Some c → CustomerID o = c) ∧
  (∀ t, optCreateFrom opts = Some t → t ≤ CreatedAt o) ∧
  (∀ t, optCreateTo opts = Some t → CreatedAt o ≤ t).

(** The stored orders in some fixed enumeration. *)
Definition storedOrders (s : InMemoryService) : list Order := (map_to_list (orders s)).*2.

(** The start of the window, as the code computes it. *)
Definition windowStart (opts : ListOptions) : Z :=
  int_wrap ((normPage (Page opts) - 1) * normPageSize (PageSize opts)).

(** ** Sample data *)

Definition sampleLine : OrderLine := mkLine "p1" 2 500 0.

(** The skeleton of the example scenario: customer c1, USD, one line of
    two units at 500 cents. *)
Definition sampleSkeleton : Order :=
  mkOrder EmptyString "c1" "USD" [sampleLine] None 0 EmptyString 0 0 0 None.

Definition storedOrder (id : string) (created : Time) (deleted : option Time) : Order :=
  mkOrder id "c1" "USD" [mkLine "p1" 2 500 1000] None 1000 StatusPending 1
          created created deleted.

(** A store holding order o1 under the idempotency key k1, and a second
    key k2 whose order is missing. *)
Definition sampleStore : InMemoryService :=
  mkService {[ "o1" := storedOrder "o1" 100 None ]}
            (<[ "k2" := "gone" ]> {[ "k1" := "o1" ]}).


(** A valid skeleton whose single line overflows [int64]: two units at
    2^62 cents. *)
Definition overflowSkeleton : Order :=
  mkOrder EmptyString "c1" "USD" [mkLine "p1" 2 4611686018427387904 0] None
          0 EmptyString 0 0 0 None.

(** What Create stores for [overflowSkeleton] with id n1 at time 7. *)
Definition overflowOrder : Order :=
  mkOrder "n1" "c1" "USD"
          [mkLine "p1" 2 4611686018427387904 (-9223372036854775808)] None
          (-9223372036854775808) StatusPending 1 7 7 None.

(** A skeleton with a line of quantity zero. *)
Definition zeroQuantitySkeleton : Order :=
  mkOrder EmptyString "c1" "USD" [mkLine "p1" 0 500 0] None 0 EmptyString 0 0 0 None.

(** Two live orders created at the same instant. *)
Definition tieStore : InMemoryService :=
  mkService (<[ "b" := storedOrder "b" 100 None ]>
               {[ "a" := storedOrder "a" 100 None ]}) ∅.

(** One live order and one soft-deleted order. *)
Definition tombstoneStore : InMemoryService :=
  mkService (<[ "d1" := storedOrder "d1" 50 (Some 60) ]>
               {[ "o1" := storedOrder "o1" 100 None ]}) ∅.

Definition noFilter (page pageSize : Z) : ListOptions :=
  mkOpts None None None None page pageSize.

Definition cancelled : Context := mkCtx (Some Canceled).

(** A store whose only order has been delivered. *)
Definition deliveredOrder : Order :=
  mkOrder "o1" "c1" "USD" [mkLine "p1" 2 500 1000] None 1000 StatusDelivered 4
          100 130 None.

Definition deliveredStore : InMemoryService :=
  mkService {[ "o1" := deliveredOrder ]} ∅.

(** The store after creating the sample order under key k1 in a new
    service. *)
Definition oneOrderStore : InMemoryService :=
  (Create 7 "n1" background NewInMemoryService sampleSkeleton "k1").2.

(** Two live orders created at different instants. *)
Definition twoTimesStore : InMemoryService :=
  mkService (<[ "o2" := storedOrder "o2" 200 None ]>
               {[ "o1" := storedOrder "o1" 100 None ]}) ∅.

(** * Verification *)

(** ** Cloning returns an equal value *)

Lemma cloneMap_id m : cloneMap m = m.
Proof.
  destruct m as [m|]; [|done]. simpl. f_equal.
  apply (map_fold_weak_ind (λ r m, r = m)); [done|].
  by intros i x m' r _ ->.
Qed.

Lemma copy_slice_make (l : list OrderLine) :
  copy_slice (make_lines (length l)) l = l.
Proof.
  unfold copy_slice, make_lines.
  rewrite length_replicate, firstn_all, drop_replicate, Nat.sub_diag.
  simpl. by rewrite app_nil_r.
Qed.

Lemma cloneOrder_id o : cloneOrder o = o.
Proof.
  destruct o as [i c cu ls at_ t st v ca ua d]. unfold cloneOrder. simpl.
  rewrite copy_slice_make, cloneMap_id. by destruct d.
Qed.

(** ** Strings *)

Lemma isEmpty_true s : isEmpty s = true ↔ s = EmptyString.
Proof. unfold isEmpty. apply String.eqb_eq. Qed.

Lemma isEmpty_false s : isEmpty s = false ↔ s ≠ EmptyString.
Proof. unfold isEmpty. apply String.eqb_neq. Qed.

(** ** Create: the reuse path *)

Lemma lookupIdempotent_hit s key orderID existing :
  idempo s !! key = Some orderID →
  orders s !! orderID = Some existing →
  lookupIdempotent s key = Some (existing, true, None).
Proof.
  intros Hk Ho. unfold lookupIdempotent. by rewrite Hk, Ho, cloneOrder_id.
Qed.

Lemma lookupIdempotent_dangling s key orderID :
  idempo s !! key = Some orderID →
  orders s !! orderID = None →
  lookupIdempotent s key = Some (zeroOrder, false, Some ErrIdempotency).
Proof. intros Hk Ho. unfold lookupIdempotent. by rewrite Hk, Ho. Qed.

Lemma lookupIdempotent_miss s key :
  idempo s !! key = None → lookupIdempotent s key = None.
Proof. intros Hk. unfold lookupIdempotent. by rewrite Hk. Qed.

Lemma Create_fast_path now freshID ctx s o key r :
  ctxCause ctx = None →
  key ≠ EmptyString →
  lookupIdempotent s key = Some r →
  Create now freshID ctx s o key = (r, s).
Proof.
  intros Hctx Hkey Hr. unfold Create, ctx_Err. rewrite Hctx. simpl.
  apply isEmpty_false in Hkey. by rewrite Hkey, Hr.
Qed.

(** C1. With a live context and a non-empty idempotency key present in the
    index: when the indexed id resolves to an order, Create returns a copy
    of it (a clone, equal to it field by field) with reused = true and
    leaves the store, both maps, as it was; when it resolves to nothing,
    Create fails with ErrIdempotency, which is not ErrNotFound. *)
Theorem Create_indexed_key now freshID ctx s o key orderID :
  ctxCause ctx = None →
  key ≠ EmptyString →
  idempo s !! key = Some orderID →
  (∀ existing, orders s !! orderID = Some existing →
     Create now freshID ctx s o key = ((cloneOrder existing, true, None), s) ∧
     cloneOrder existing = existing) ∧
  (orders s !! orderID = None →
     Create now freshID ctx s o key = ((zeroOrder, false, Some ErrIdempotency), s)) ∧
  ErrIdempotency ≠ ErrNotFound.
Proof.
  intros Hctx Hkey Hidx. split; [|split]; [| |discriminate].
  - intros existing Ho. split; [|apply cloneOrder_id].
    apply Create_fast_path; [done..|].
    rewrite cloneOrder_id. by eapply lookupIdempotent_hit.
  - intros Ho. apply Create_fast_path; [done..|].
    by eapply lookupIdempotent_dangling.
Qed.

Lemma Create_indexed_key_witness :
  (Create 7 "n1" background sampleStore zeroOrder "k1"
     = ((cloneOrder (storedOrder "o1" 100 None), true, None), sampleStore)) ∧
  (Create 7 "n1" background sampleStore zeroOrder "k2"
     = ((zeroOrder, false, Some ErrIdempotency), sampleStore)).
Proof.
  split.
  - apply (Create_indexed_key 7 "n1" background sampleStore zeroOrder "k1" "o1");
      [reflexivity | discriminate | reflexivity | reflexivity].
  - apply (Create_indexed_key 7 "n1" background sampleStore zeroOrder "k2" "gone");
      [reflexivity | discriminate | reflexivity | reflexivity].
Defined.

(** ** Machine arithmetic *)

Lemma int64_wrap_range z : int64_range (int64_wrap z).
Proof.
  unfold int64_range, int64_wrap.
  pose proof (Z.mod_pos_bound (z + 2 ^ 63) (2 ^ 64) ltac:(lia)). lia.
Qed.

Lemma int64_wrap_id z : int64_range z → int64_wrap z = z.
Proof.
  unfold int64_range, int64_wrap. intros H.
  rewrite Z.mod_small by lia. lia.
Qed.

Lemma int64_wrap_add_l a b : int64_wrap (int64_wrap a + b) = int64_wrap (a + b).
Proof.
  unfold int64_wrap. f_equal.
  replace ((a + 2 ^ 63) `mod` 2 ^ 64 - 2 ^ 63 + b + 2 ^ 63)
    with ((a + 2 ^ 63) `mod` 2 ^ 64 + b) by lia.
  rewrite Zplus_mod_idemp_l. f_equal. lia.
Qed.

(** ** Create: the line loop *)

Lemma validLine_check l :
  validLine l ↔ (Quantity l <=? 0) || (UnitPriceCents l <? 0) = false.
Proof.
  unfold validLine. rewrite orb_false_iff, Z.leb_gt, Z.ltb_ge. tauto.
Qed.

Lemma createLines_valid lines t :
  Forall validLine lines →
  int64_range t →
  createLines lines t =
    Some (map recomputed lines,
          int64_wrap (t + sumLineTotals (map recomputed lines))).
Proof.
  intros Hv. revert t. induction Hv as [|l ls Hl _ IH]; intros t Ht; simpl.
  - by rewrite Z.add_0_r, int64_wrap_id.
  - apply validLine_check in Hl. rewrite Hl.
    rewrite IH by apply int64_wrap_range.
    unfold int64_of_int. fold (recomputed l). do 2 f_equal.
    rewrite int64_wrap_add_l. f_equal. lia.
Qed.

Lemma createLines_invalid lines t :
  Exists (λ l, ¬ validLine l) lines → createLines lines t = None.
Proof.
  intros Hx. revert t. induction Hx as [l ls Hl|l ls _ IH]; intros t; simpl.
  - rewrite validLine_check in Hl. by destruct (_ || _).
  - destruct (_ || _); [done|]. by rewrite IH.
Qed.

Lemma exactTotal_nonneg ls : Forall validLine ls → 0 ≤ exactTotal ls.
Proof.
  induction 1 as [|l ls [Hq Hp] _ IH]; simpl; [done|]. nia.
Qed.

(** Without overflow the recomputed totals are the exact products. *)
Lemma recomputed_exact ls :
  Forall validLine ls →
  exactTotal ls < 2 ^ 63 →
  Forall (λ l, LineTotalCents (recomputed l) = Quantity l * UnitPriceCents l) ls ∧
  sumLineTotals (map recomputed ls) = exactTotal ls.
Proof.
  induction 1 as [|l ls Hl Hls IH]; simpl; intros Hsum; [done|].
  pose proof (exactTotal_nonneg ls Hls) as Hnn.
  destruct Hl as [Hq Hp].
  assert (int64_wrap (Quantity l * UnitPriceCents l) = Quantity l * UnitPriceCents l) as Hw.
  { apply int64_wrap_id. unfold int64_range. nia. }
  destruct IH as [IH1 IH2]; [nia|].
  split; [constructor; [done|done]|]. rewrite Hw, IH2. done.
Qed.

(** ** Create: validation, construction and commit *)

Lemma buildOrder_valid now freshID o :
  validSkeleton o →
  buildOrder now freshID o =
    Some (mkOrder freshID (CustomerID o) (Currency o) (map recomputed (Lines o))
                  (Attributes o)
                  (int64_wrap (sumLineTotals (map recomputed (Lines o))))
                  StatusPending 1 now now None).
Proof.
  intros (Hc & Hcu & Hl & Hv). unfold buildOrder.
  apply isEmpty_false in Hc, Hcu. rewrite Hc, Hcu. simpl.
  destruct (Lines o) as [|l ls] eqn:E; [done|]. cbn [length Nat.eqb].
  rewrite createLines_valid; [|done|unfold int64_range; lia].
  by rewrite Z.add_0_l, cloneMap_id.
Qed.

Lemma buildOrder_invalid now freshID o :
  invalidSkeleton o → buildOrder now freshID o = None.
Proof.
  intros [Hc|[Hcu|[Hl|Hx]]]; unfold buildOrder.
  - apply isEmpty_true in Hc. by rewrite Hc.
  - apply isEmpty_true in Hcu. rewrite Hcu. by rewrite orb_true_r.
  - rewrite Hl. simpl. by rewrite !orb_true_r.
  - destruct (_ || _); [done|]. rewrite createLines_invalid; [done|].
    eapply Exists_impl; [exact Hx|]. unfold validLine. intros l Hl. simpl in Hl. lia.
Qed.

Lemma lookup_unused s key :
  keyUnused s key →
  (if isEmpty key then None else lookupIdempotent s key) = None.
Proof.
  intros [->|Hk]; [done|]. destruct (isEmpty key); [done|].
  by apply lookupIdempotent_miss.
Qed.

Lemma Create_slow_path now freshID ctx s o key :
  ctxCause ctx = None →
  keyUnused s key →
  Create now freshID ctx s o key =
    match buildOrder now freshID o with
    | None => ((zeroOrder, false, Some ErrInvalidInput), s)
    | Some newOrder =>
        ((newOrder, false, None),
         mkService (<[ID newOrder := newOrder]> (orders s))
                   (if isEmpty key then idempo s
                    else <[key := ID newOrder]> (idempo s)))
    end.
Proof.
  intros Hctx Hk. unfold Create, ctx_Err. rewrite Hctx. simpl.
  rewrite lookup_unused by done.
  destruct (buildOrder now freshID o) as [newOrder|]; [|done].
  unfold commitOrder. rewrite lookup_unused by done.
  by rewrite cloneOrder_id.
Qed.

(** C2 (as amended). For a valid skeleton and an idempotency key that is
    not in the index, and a live context, Create succeeds with
    reused = false; the order has status PENDING and version 1; every line
    is the caller's line with its total recomputed as quantity times unit
    price in int64 arithmetic, whatever total the caller supplied;
    TotalCents is the int64 sum of the recomputed totals; and when the exact
    sum of the products is below 2^63 both are the exact product and the
    exact sum.  The order is stored under its id and a non-empty key is
    registered in the index. *)
Theorem Create_valid_unused now freshID ctx s o key :
  ctxCause ctx = None →
  validSkeleton o →
  keyUnused s key →
  ∃ ord s',
    Create now freshID ctx s o key = ((ord, false, None), s') ∧
    ID ord = freshID ∧ Status ord = StatusPending ∧ Version ord = 1 ∧
    Lines ord = map recomputed (Lines o) ∧
    TotalCents ord = int64_wrap (sumLineTotals (Lines ord)) ∧
    (exactTotal (Lines o) < 2 ^ 63 →
       Forall (λ l, LineTotalCents l = Quantity l * UnitPriceCents l) (Lines ord) ∧
       TotalCents ord = sumLineTotals (Lines ord)) ∧
    orders s' = <[freshID := ord]> (orders s) ∧
    (key = EmptyString → idempo s' = idempo s) ∧
    (key ≠ EmptyString → idempo s' = <[key := freshID]> (idempo s)).
Proof.
  intros Hctx Hv Hk.
  rewrite Create_slow_path, (buildOrder_valid _ _ _ Hv) by done.
  eexists _, _. split; [reflexivity|]. simpl.
  split_and!; try done.
  - intros Hsum. destruct Hv as (_ & _ & _ & Hv).
    destruct (recomputed_exact _ Hv Hsum) as [H1 H2]. split.
    + rewrite Forall_fmap. eapply Forall_impl; [exact H1|]. by intros l Hl.
    + rewrite H2. apply int64_wrap_id.
      pose proof (exactTotal_nonneg _ Hv). unfold int64_range. lia.
  - intros ->. done.
  - intros Hne. apply isEmpty_false in Hne. by rewrite Hne.
Qed.

Lemma Create_valid_unused_witness :
  ∃ ord s',
    Create 7 "n1" background sampleStore sampleSkeleton "k3" = ((ord, false, None), s') ∧
    ID ord = "n1" ∧ Status ord = StatusPending ∧ Version ord = 1 ∧
    Lines ord = map recomputed (Lines sampleSkeleton) ∧
    TotalCents ord = int64_wrap (sumLineTotals (Lines ord)) ∧
    (exactTotal (Lines sampleSkeleton) < 2 ^ 63 →
       Forall (λ l, LineTotalCents l = Quantity l * UnitPriceCents l) (Lines ord) ∧
       TotalCents ord = sumLineTotals (Lines ord)) ∧
    orders s' = <[ "n1" := ord]> (orders sampleStore) ∧
    ("k3" = EmptyString → idempo s' = idempo sampleStore) ∧
    ("k3" ≠ EmptyString → idempo s' = <[ "k3" := "n1"]> (idempo sampleStore)).
Proof.
  apply (Create_valid_unused 7 "n1" background sampleStore sampleSkeleton "k3").
  - reflexivity.
  - unfold validSkeleton, validLine. simpl.
    repeat split; try discriminate. repeat constructor; simpl; lia.
  - right. reflexivity.
Defined.

(** C2, as first stated, fails where the product leaves int64: two units at
    2^62 cents are a valid line, and the stored line total and order total
    are -2^63, not 2^63. *)
Lemma Create_total_overflows :
  validSkeleton overflowSkeleton ∧
  keyUnused NewInMemoryService EmptyString ∧
  Create 7 "n1" background NewInMemoryService overflowSkeleton EmptyString
    = ((overflowOrder, false, None), mkService {[ "n1" := overflowOrder ]} ∅) ∧
  Exists (λ l, LineTotalCents l ≠ Quantity l * UnitPriceCents l) (Lines overflowOrder) ∧
  TotalCents overflowOrder ≠ exactTotal (Lines overflowSkeleton).
Proof.
  split; [|split; [|split; [|split]]].
  - unfold validSkeleton, validLine. simpl.
    repeat split; try discriminate. repeat constructor; simpl; lia.
  - by left.
  - vm_compute. reflexivity.
  - constructor. simpl. lia.
  - vm_compute. discriminate.
Qed.

(** C3. With a live context, a skeleton that breaks a validation rule and
    an idempotency key that, if given, is not in the index, Create fails
    with ErrInvalidInput and the store, primary table and index, is
    unchanged. *)
Theorem Create_invalid_input now freshID ctx s o key :
  ctxCause ctx = None →
  invalidSkeleton o →
  keyUnused s key →
  Create now freshID ctx s o key = ((zeroOrder, false, Some ErrInvalidInput), s).
Proof.
  intros Hctx Hinv Hk.
  by rewrite Create_slow_path, (buildOrder_invalid _ _ _ Hinv).
Qed.

Lemma Create_invalid_input_witness :
  Create 7 "n1" background sampleStore zeroQuantitySkeleton "k3"
    = ((zeroOrder, false, Some ErrInvalidInput), sampleStore).
Proof.
  apply (Create_invalid_input 7 "n1" background sampleStore zeroQuantitySkeleton "k3").
  - reflexivity.
  - right. right. right. constructor. left. simpl. lia.
  - right. reflexivity.
Defined.

(** C10. The idempotency check comes before validation: with a live
    context and a non-empty key registered to an existing order, Create
    returns that order with reused = true and no error even when the
    skeleton is invalid. *)
Theorem Create_reuse_before_validation now freshID ctx s o key orderID existing :
  ctxCause ctx = None →
  key ≠ EmptyString →
  idempo s !! key = Some orderID →
  orders s !! orderID = Some existing →
  invalidSkeleton o →
  Create now freshID ctx s o key = ((cloneOrder existing, true, None), s) ∧
  cloneOrder existing = existing.
Proof.
  intros Hctx Hkey Hidx Ho _. split; [|apply cloneOrder_id].
  apply Create_fast_path; [done..|].
  rewrite cloneOrder_id. by eapply lookupIdempotent_hit.
Qed.

Lemma Create_reuse_before_validation_witness :
  Create 7 "n1" background sampleStore zeroQuantitySkeleton "k1"
    = ((cloneOrder (storedOrder "o1" 100 None), true, None), sampleStore) ∧
  cloneOrder (storedOrder "o1" 100 None) = storedOrder "o1" 100 None.
Proof.
  apply (Create_reuse_before_validation 7 "n1" background sampleStore
           zeroQuantitySkeleton "k1" "o1" (storedOrder "o1" 100 None)).
  - reflexivity.
  - discriminate.
  - reflexivity.
  - reflexivity.
  - right. right. right. constructor. left. simpl. lia.
Defined.

(** ** Sorting *)

Lemma createdAfter_strict_weak : StrictWeakOrder createdAfter.
Proof.
  split; unfold createdAfter, After.
  - intros a b H. apply bool_decide_eq_true in H.
    apply bool_decide_eq_false. lia.
  - intros a b c H1 H2. apply bool_decide_eq_false in H1, H2.
    apply bool_decide_eq_false. lia.
Qed.

Lemma StronglySorted_reverse_flip {A} (R : relation A) l :
  StronglySorted R l → StronglySorted (flip R) (reverse l).
Proof.
  induction 1 as [|x l _ IH Hx]; [rewrite reverse_nil; constructor|].
  rewrite reverse_cons. apply StronglySorted_app. split_and!.
  - intros x1 x2 H1 H2. apply list_elem_of_singleton in H2 as ->.
    rewrite elem_of_reverse in H1. rewrite Forall_forall in Hx.
    unfold flip. by apply Hx.
  - done.
  - repeat constructor.
Qed.

Lemma StronglySorted_slice {A} (R : relation A) l i n :
  StronglySorted R l → StronglySorted R (take n (drop i l)).
Proof.
  intros H. rewrite <- (take_drop i l) in H.
  apply StronglySorted_app_1_r in H.
  rewrite <- (take_drop n (drop i l)) in H.
  by apply StronglySorted_app_1_l in H.
Qed.

Section InsertionSort.
Context {A : Type} (less : A → A → bool) (Hless : StrictWeakOrder less).

Lemma insertBack_perm x rp : insertBack less x rp ≡ₚ x :: rp.
Proof.
  induction rp as [|y ys IH]; simpl; [done|].
  destruct (less x y); [|done]. rewrite IH. apply Permutation_swap.
Qed.

Lemma insertBack_sorted x rp :
  StronglySorted (λ a b, less a b = false) rp →
  StronglySorted (λ a b, less a b = false) (insertBack less x rp).
Proof.
  induction 1 as [|y ys Hys IH Hy]; simpl; [repeat constructor|].
  destruct (less x y) eqn:E.
  - constructor; [done|]. rewrite insertBack_perm. constructor; [|done].
    by apply (less_asym _ Hless).
  - constructor; [by constructor|]. constructor; [done|].
    eapply Forall_impl; [exact Hy|]. intros b Hb. simpl in Hb.
    by apply (less_negtrans _ Hless) with y.
Qed.

Lemma insertionSort_prefix_perm l rp :
  foldl (λ rp x, insertBack less x rp) rp l ≡ₚ l ++ rp.
Proof.
  revert rp. induction l as [|x l IH]; intros rp; simpl; [done|].
  rewrite IH, insertBack_perm. by rewrite Permutation_middle.
Qed.

Lemma insertionSort_prefix_sorted l rp :
  StronglySorted (λ a b, less a b = false) rp →
  StronglySorted (λ a b, less a b = false)
                 (foldl (λ rp x, insertBack less x rp) rp l).
Proof.
  revert rp. induction l as [|x l IH]; intros rp H; simpl; [done|].
  by apply IH, insertBack_sorted.
Qed.

Lemma insertionSort_perm l : insertionSort less l ≡ₚ l.
Proof.
  unfold insertionSort.
  by rewrite reverse_Permutation, insertionSort_prefix_perm, app_nil_r.
Qed.

Lemma insertionSort_sorted l : sortedBy less (insertionSort less l).
Proof.
  unfold insertionSort, sortedBy.
  apply (StronglySorted_reverse_flip (λ a b, less a b = false)).
  apply insertionSort_prefix_sorted. constructor.
Qed.
End InsertionSort.

Lemma insertionSort_spec : SortSliceSpec insertionSort.
Proof.
  intros less l Hless. split.
  - apply insertionSort_perm.
  - by apply insertionSort_sorted.
Qed.

Lemma rangeAscending_spec : RangeSpec rangeAscending.
Proof. by intros m. Qed.

Lemma rangeDescending_spec : RangeSpec rangeDescending.
Proof. intros m. apply reverse_Permutation. Qed.

(** ** List: what the items are *)

Lemma map_cloneOrder l : map cloneOrder l = l.
Proof. induction l as [|o l IH]; simpl; [done|]. by rewrite cloneOrder_id, IH. Qed.

Lemma paginate_items l opts :
  ∃ i n, listItems (paginate l opts) = take n (drop i l).
Proof.
  unfold paginate.
  destruct (_ >=? _); [by exists 0%nat, 0%nat|].
  destruct (_ || _); [by exists 0%nat, 0%nat|].
  simpl. rewrite map_cloneOrder. eauto.
Qed.

Lemma List_items rangeOrders sortSlice ctx s opts :
  ∃ i n, listItems (List rangeOrders sortSlice ctx s opts) =
    take n (drop i (sortSlice createdAfter
                      (List.filter (listKeeps opts) (rangeOrders (orders s))))).
Proof.
  unfold List. destruct (ctxErr ctx); [by exists 0%nat, 0%nat|].
  apply paginate_items.
Qed.

Lemma listKeeps_live opts o : listKeeps opts o = true → DeletedAt o = None.
Proof.
  unfold listKeeps. case_bool_decide as Hd; [done|]. intros _.
  by destruct (DeletedAt o).
Qed.


(** X26. Whatever order the map is ranged in and whichever sort meeting
    the contract of sort.Slice is used, the items List returns are in
    createdAt-descending order: no item is older than an item after it. *)
Theorem List_newest_first rangeOrders sortSlice ctx s opts :
  SortSliceSpec sortSlice →
  StronglySorted newestFirst (listItems (List rangeOrders sortSlice ctx s opts)).
Proof.
  intros Hsort.
  destruct (List_items rangeOrders sortSlice ctx s opts) as (i & n & ->).
  apply StronglySorted_slice.
  destruct (Hsort createdAfter
              (List.filter (listKeeps opts) (rangeOrders (orders s)))
              createdAfter_strict_weak) as [_ Hs].
  unfold sortedBy in Hs.
  induction Hs as [|a l _ IH Ha]; constructor; [done|].
  eapply Forall_impl; [exact Ha|]. intros b Hb. simpl in Hb.
  unfold createdAfter, After in Hb. apply bool_decide_eq_false in Hb.
  unfold newestFirst. lia.
Qed.

Lemma List_newest_first_witness :
  StronglySorted newestFirst
    (listItems (List rangeAscending insertionSort background twoTimesStore
                     (noFilter 1 10))) ∧
  listItems (List rangeAscending insertionSort background twoTimesStore
                  (noFilter 1 10))
    = [storedOrder "o2" 200 None; storedOrder "o1" 100 None].
Proof.
  split.
  - apply (List_newest_first rangeAscending insertionSort background
             twoTimesStore (noFilter 1 10)).
    exact insertionSort_spec.
  - vm_compute. reflexivity.
Defined.

(** C6. The claim asks for a deterministic order, ties broken by id
    ascending, and the source comment gives the purpose of the sort as
    consistent pagination.  The less function compares creation times only
    and the slice comes from a map range.  On two orders a and b created
    at the same instant, with the insertion sort that sort.Slice runs on
    short slices: when the range yields b first the listing is b, a, which
    is not in id order; and with page size 1, page 1 under that range order
    and page 2 under the opposite range order are both b, so a client
    paging through sees b twice and a never. *)
Theorem List_tie_pagination_inconsistent :
  RangeSpec rangeAscending ∧ RangeSpec rangeDescending ∧
  SortSliceSpec insertionSort ∧
  CreatedAt (storedOrder "a" 100 None) = CreatedAt (storedOrder "b" 100 None) ∧
  String.ltb (ID (storedOrder "a" 100 None)) (ID (storedOrder "b" 100 None)) = true ∧
  listItems (List rangeDescending insertionSort background tieStore (noFilter 1 10))
    = [storedOrder "b" 100 None; storedOrder "a" 100 None] ∧
  ¬ StronglySorted newestThenID
      [storedOrder "b" 100 None; storedOrder "a" 100 None] ∧
  listItems (List rangeDescending insertionSort background tieStore (noFilter 1 1))
    = [storedOrder "b" 100 None] ∧
  listItems (List rangeAscending insertionSort background tieStore (noFilter 2 1))
    = [storedOrder "b" 100 None].
Proof.
  split_and!;
    [exact rangeAscending_spec | exact rangeDescending_spec
    | exact insertionSort_spec | reflexivity | reflexivity
    | vm_compute; reflexivity | | vm_compute; reflexivity
    | vm_compute; reflexivity].
  intros H. apply StronglySorted_cons in H as [H _].
  apply Forall_cons in H as [[H|[_ H]] _]; simpl in H; [lia|].
  vm_compute in H. discriminate.
Qed.

(** ** Get and List: soft-deleted orders *)

Lemma ctxErr_live ctx : ctxCause ctx = None → ctxErr ctx = None.
Proof. intros H. unfold ctxErr, ctx_Done. by rewrite H. Qed.

Lemma ctxErr_done ctx e : ctxCause ctx = Some e → ctxErr ctx = Some (ErrContext e).
Proof. intros H. unfold ctxErr, ctx_Done, ctx_Err. by rewrite H. Qed.



(** ** Pagination *)

Lemma paginate_beyond_range filtered opts :
  let n := Z.of_nat (length filtered) in
  let p := normPage (Page opts) in
  let ps := normPageSize (PageSize opts) in
  n ≤ (p - 1) * ps < 2 ^ 63 →
  paginate filtered opts = Returned (mkResult [] 0 0 n 0, None).
Proof.
  intros n p ps H. unfold paginate. fold n p ps. unfold int_wrap.
  rewrite (int64_wrap_id ((p - 1) * ps)) by (unfold int64_range; lia).
  destruct (_ >=? _) eqn:E; [done|]. lia.
Qed.

Lemma normPage_pos p : 0 < normPage p.
Proof. unfold normPage. destruct (p <=? 0) eqn:E; lia. Qed.

Lemma normPageSize_pos p : 0 < normPageSize p.
Proof. unfold normPageSize. destruct (p <=? 0) eqn:E; lia. Qed.

(** On the path that builds the full result, and as long as the window
    arithmetic stays inside [int], the page, the page size and
    ceil(totalItems / pageSize) are reported. *)
Lemma paginate_within_range filtered opts :
  let n := Z.of_nat (length filtered) in
  let p := normPage (Page opts) in
  let ps := normPageSize (PageSize opts) in
  (p - 1) * ps < n →
  n + ps < 2 ^ 63 →
  paginate filtered opts =
    Returned (mkResult (take (Z.to_nat ps) (drop (Z.to_nat ((p - 1) * ps)) filtered))
                       p ps n (ceilDiv n ps), None).
Proof.
  intros n p ps Hlt Hov. unfold paginate. fold n p ps. unfold int_wrap.
  pose proof (normPage_pos (Page opts)) as Hp. fold p in Hp.
  pose proof (normPageSize_pos (PageSize opts)) as Hps. fold ps in Hps.
  assert (0 ≤ (p - 1) * ps) as Hst by nia.
  rewrite (int64_wrap_id ((p - 1) * ps)) by (unfold int64_range; lia).
  rewrite (int64_wrap_id ((p - 1) * ps + ps)) by (unfold int64_range; lia).
  rewrite (int64_wrap_id (n + ps)) by (unfold int64_range; lia).
  rewrite (int64_wrap_id (n + ps - 1)) by (unfold int64_range; lia).
  rewrite Z.quot_div_nonneg by lia.
  rewrite int64_wrap_id.
  2:{ unfold int64_range. split; [apply Z.le_trans with 0; [lia|apply Z.div_pos; lia]|].
      apply Z.le_lt_trans with (n + ps - 1); [|lia].
      apply Z.div_le_upper_bound; nia. }
  destruct (_ >=? _) eqn:E1; [lia|].
  rewrite map_cloneOrder. unfold ceilDiv.
  destruct ((p - 1) * ps + ps >? n) eqn:E2.
  - replace ((_ <? 0) || (n <? _)) with false
      by (symmetry; apply orb_false_iff; lia).
    do 3 f_equal.
    rewrite !firstn_all2; [done | |];
      rewrite length_drop; unfold n in *; lia.
  - replace ((_ <? 0) || (_ <? _)) with false
      by (symmetry; apply orb_false_iff; lia).
    do 4 f_equal. lia.
Qed.

(** ** Cancelled contexts *)

Lemma Create_cancelled now freshID ctx s o key e :
  ctxCause ctx = Some e →
  Create now freshID ctx s o key = ((zeroOrder, false, Some (ErrContext e)), s).
Proof. intros H. unfold Create, ctx_Err. by rewrite H. Qed.

Lemma Get_cancelled ctx s id includeDeleted e :
  ctxCause ctx = Some e →
  Get ctx s id includeDeleted = (zeroOrder, Some (ErrContext e)).
Proof. intros H. unfold Get. by rewrite (ctxErr_done _ _ H). Qed.

Lemma List_cancelled rangeOrders sortSlice ctx s opts e :
  ctxCause ctx = Some e →
  List rangeOrders sortSlice ctx s opts = Returned (zeroResult, Some (ErrContext e)).
Proof. intros H. unfold List. by rewrite (ctxErr_done _ _ H). Qed.

(** ** The state machine predicate *)

Lemma isTransitionAllowed_edges from to :
  isTransitionAllowed from to = true ↔ allowedEdge from to.
Proof.
  unfold isTransitionAllowed, allowedEdge.
  destruct (String.eqb_spec from StatusPending) as [->|H1].
  { rewrite orb_true_iff, !String.eqb_eq. split; [tauto|].
    intros [[_ ->]|[[_ ->]|[[? _]|[[? _]|[? _]]]]]; (tauto || discriminate). }
  destruct (String.eqb_spec from StatusConfirmed) as [->|H2].
  { rewrite orb_true_iff, !String.eqb_eq. split; [tauto|].
    intros [[? _]|[[? _]|[[_ ->]|[[_ ->]|[? _]]]]]; (tauto || discriminate). }
  destruct (String.eqb_spec from StatusShipped) as [->|H3].
  { rewrite String.eqb_eq. split; [tauto|].
    intros [[? _]|[[? _]|[[? _]|[[? _]|[_ ->]]]]]; (tauto || discriminate). }
  split; [discriminate|]. tauto.
Qed.

Lemma terminal_statuses to :
  isTransitionAllowed StatusDelivered to = false ∧
  isTransitionAllowed StatusCanceled to = false.
Proof. done. Qed.

(** ** UpdatedStatus as the source has it *)

(** The method returns the zero order and a nil error whatever it is given,
    and never writes to the store. *)
Lemma UpdatedStatus_stub ctx s id newStatus expectedVersion :
  UpdatedStatus ctx s id newStatus expectedVersion = ((zeroOrder, None), s).
Proof. reflexivity. Qed.

(** C4. The claim asks for ErrConflict on a stale expected version and for
    version + 1 on an accepted transition.  On the stored order o1 (PENDING,
    version 1): with expected version 2 the call returns a nil error, not
    ErrConflict; with expected version 1 and the legal target CONFIRMED the
    call returns a nil error, yet the stored order keeps version 1 and the
    returned order is the zero order with version 0. *)
Theorem UpdatedStatus_version_unchecked :
  orders sampleStore !! "o1" = Some (storedOrder "o1" 100 None) ∧
  Version (storedOrder "o1" 100 None) = 1 ∧
  UpdatedStatus background sampleStore "o1" StatusConfirmed (Some 2)
    = ((zeroOrder, None), sampleStore) ∧
  isTransitionAllowed StatusPending StatusConfirmed = true ∧
  UpdatedStatus background sampleStore "o1" StatusConfirmed (Some 1)
    = ((zeroOrder, None), sampleStore) ∧
  Version zeroOrder = 0.
Proof. by split_and!. Qed.

(** C5. The claim asks for ErrInvalidState on an edge outside the state
    machine.  DELIVERED to PENDING is no edge, yet on the delivered order
    o1 the call returns a nil error. *)
Theorem UpdatedStatus_edge_unchecked :
  orders deliveredStore !! "o1" = Some deliveredOrder ∧
  Status deliveredOrder = StatusDelivered ∧
  isTransitionAllowed StatusDelivered StatusPending = false ∧
  UpdatedStatus background deliveredStore "o1" StatusPending None
    = ((zeroOrder, None), deliveredStore).
Proof. by split_and!. Qed.

(** C7. The claim asks for totalPages = ceil(totalItems / pageSize) also
    when the page is beyond the data.  With one live order, page 2 and page
    size 10, List returns no items and totalItems 1, but totalPages 0 (and
    page 0, page size 0) where ceil(1 / 10) is 1. *)
Theorem List_beyond_range_total_pages :
  List rangeAscending insertionSort background sampleStore (noFilter 2 10)
    = Returned (mkResult [] 0 0 1 0, None) ∧
  ceilDiv 1 (normPageSize 10) = 1.
Proof. split; vm_compute; reflexivity. Qed.

(** C9. The claim asks every operation to fail with the cancellation error
    of a context that is already cancelled.  Create, Get and List do
    ([Create_cancelled], [Get_cancelled], [List_cancelled]); UpdatedStatus
    returns a nil error. *)
Theorem UpdatedStatus_ignores_cancellation :
  ctx_Err cancelled = Some (ErrContext Canceled) ∧
  UpdatedStatus cancelled sampleStore "o1" StatusConfirmed None
    = ((zeroOrder, None), sampleStore).
Proof. by split. Qed.

(** * Further properties of the code *)

(** ** Cloning *)

(** X1. cloneOrder returns an order equal to its argument in every field:
    the lines slice has the same elements in the same order, a nil
    attribute map stays nil, and a set deletedAt keeps its instant. *)
Theorem cloneOrder_preserves o :
  cloneOrder o = o ∧
  (Attributes (cloneOrder o) = None ↔ Attributes o = None) ∧
  length (Lines (cloneOrder o)) = length (Lines o).
Proof. by rewrite cloneOrder_id. Qed.

(** X2. cloneMap keeps nil as nil; for a map that is not nil it returns a
    map that is not nil and has exactly the same entries. *)
Theorem cloneMap_entries :
  cloneMap None = None ∧
  ∀ m, ∃ cp, cloneMap (Some m) = Some cp ∧ ∀ k, cp !! k = m !! k.
Proof.
  split; [done|]. intros m. exists m. split; [|done].
  apply (cloneMap_id (Some m)).
Qed.

(** ** Statuses *)

(** X3. isValidStatus accepts exactly the five status values. *)
Theorem isValidStatus_known s : isValidStatus s = true ↔ knownStatus s.
Proof.
  unfold isValidStatus, knownStatus.
  rewrite !orb_true_iff, !String.eqb_eq. tauto.
Qed.

Lemma allowedEdge_rank from to :
  allowedEdge from to → (statusRank from < statusRank to)%nat.
Proof.
  intros [[-> ->]|[[-> ->]|[[-> ->]|[[-> ->]|[-> ->]]]]]; vm_compute; lia.
Qed.

(** X5. An allowed transition joins two valid statuses and never stays in
    place. *)
Theorem transition_between_valid_statuses from to :
  isTransitionAllowed from to = true →
  isValidStatus from = true ∧ isValidStatus to = true ∧ from ≠ to.
Proof.
  intros H. apply isTransitionAllowed_edges in H.
  pose proof (allowedEdge_rank _ _ H) as Hr.
  split_and!.
  - destruct H as [[-> _]|[[-> _]|[[-> _]|[[-> _]|[-> _]]]]]; reflexivity.
  - destruct H as [[_ ->]|[[_ ->]|[[_ ->]|[[_ ->]|[_ ->]]]]]; reflexivity.
  - intros ->. lia.
Qed.

Lemma transition_between_valid_statuses_witness :
  isValidStatus StatusConfirmed = true ∧ isValidStatus StatusShipped = true ∧
  StatusConfirmed ≠ StatusShipped.
Proof.
  apply (transition_between_valid_statuses StatusConfirmed StatusShipped).
  reflexivity.
Defined.

Lemma statusRank_le s : (statusRank s ≤ 3)%nat.
Proof. unfold statusRank. repeat destruct (String.eqb _ _); lia. Qed.

Lemma transitionChain_rank a l :
  transitionChain (a :: l) →
  (statusRank a + length l ≤ 3)%nat ∧
  Forall (λ b, (statusRank a < statusRank b)%nat) l.
Proof.
  revert a. induction l as [|b l IH]; intros a H.
  - simpl. pose proof (statusRank_le a). split; [lia|constructor].
  - destruct H as [Hab H]. apply isTransitionAllowed_edges, allowedEdge_rank in Hab.
    destruct (IH b H) as [Hlen Hall]. split; [simpl; lia|].
    constructor; [done|]. eapply Forall_impl; [exact Hall|].
    intros c Hc. simpl in Hc. lia.
Qed.

(** X6. The state machine has no cycle: along any path of allowed
    transitions no status occurs twice, and a path visits at most four
    statuses, that is, an order can be moved at most three times. *)
Theorem transitionChain_bounded l :
  transitionChain l → NoDup l ∧ (length l ≤ 4)%nat.
Proof.
  induction l as [|a l IH]; intros H; [split; [constructor|simpl; lia]|].
  destruct (transitionChain_rank a l H) as [Hlen Hall].
  assert (transitionChain l) as Hl by (destruct l; [done|apply H]).
  split; [|simpl; lia].
  constructor; [|by apply IH].
  intros Hin. rewrite Forall_forall in Hall. specialize (Hall a Hin). lia.
Qed.

Lemma transitionChain_bounded_witness :
  NoDup [StatusPending; StatusConfirmed; StatusShipped; StatusDelivered] ∧
  (length [StatusPending; StatusConfirmed; StatusShipped; StatusDelivered] ≤ 4)%nat.
Proof.
  apply (transitionChain_bounded
           [StatusPending; StatusConfirmed; StatusShipped; StatusDelivered]).
  simpl. split_and!; reflexivity.
Defined.

(** ** Create: every way a call can end *)

Lemma createLines_some lines t r :
  createLines lines t = Some r → Forall validLine lines.
Proof.
  revert t r. induction lines as [|l ls IH]; intros t r H; [constructor|].
  simpl in H. destruct (_ || _) eqn:E; [done|].
  destruct (createLines ls _) as [[ls' t']|] eqn:E'; [|done].
  constructor; [by apply validLine_check|by eapply IH].
Qed.

Lemma buildOrder_some now freshID o newOrder :
  buildOrder now freshID o = Some newOrder →
  validSkeleton o ∧
  newOrder = mkOrder freshID (CustomerID o) (Currency o) (map recomputed (Lines o))
                     (Attributes o)
                     (int64_wrap (sumLineTotals (map recomputed (Lines o))))
                     StatusPending 1 now now None.
Proof.
  intros H. assert (validSkeleton o) as Hv.
  { unfold buildOrder in H.
    destruct (isEmpty (CustomerID o)) eqn:E1; [done|].
    destruct (isEmpty (Currency o)) eqn:E2; [done|].
    destruct (Lines o) as [|l ls] eqn:E3; [done|].
    cbn [length Nat.eqb orb] in H.
    destruct (createLines (l :: ls) 0) as [[ls' t']|] eqn:E4; [|done].
    apply isEmpty_false in E1, E2. apply createLines_some in E4.
    unfold validSkeleton. by rewrite E3. }
  split; [done|]. rewrite (buildOrder_valid _ _ _ Hv) in H. by injection H.
Qed.

Lemma Create_cases now freshID ctx s o key :
  (∃ e, ctxCause ctx = Some e ∧
        Create now freshID ctx s o key = ((zeroOrder, false, Some (ErrContext e)), s)) ∨
  (ctxCause ctx = None ∧ key ≠ EmptyString ∧
   ∃ orderID, idempo s !! key = Some orderID ∧
     ((∃ existing, orders s !! orderID = Some existing ∧
         Create now freshID ctx s o key = ((existing, true, None), s)) ∨
      (orders s !! orderID = None ∧
         Create now freshID ctx s o key = ((zeroOrder, false, Some ErrIdempotency), s)))) ∨
  (ctxCause ctx = None ∧ keyUnused s key ∧ buildOrder now freshID o = None ∧
   Create now freshID ctx s o key = ((zeroOrder, false, Some ErrInvalidInput), s)) ∨
  (ctxCause ctx = None ∧ keyUnused s key ∧
   ∃ newOrder, buildOrder now freshID o = Some newOrder ∧
     Create now freshID ctx s o key =
       ((newOrder, false, None),
        mkService (<[ID newOrder := newOrder]> (orders s))
                  (if isEmpty key then idempo s
                   else <[key := ID newOrder]> (idempo s)))).
Proof.
  destruct (ctxCause ctx) as [e|] eqn:Hctx.
  { left. exists e. split; [done|]. by apply Create_cancelled. }
  right.
  assert (keyUnused s key ∨ (key ≠ EmptyString ∧ ∃ orderID, idempo s !! key = Some orderID))
    as [Hk|[Hne [orderID Hidx]]].
  { destruct (isEmpty key) eqn:E; [left; left; by apply isEmpty_true|].
    apply isEmpty_false in E.
    destruct (idempo s !! key) as [orderID|] eqn:E'; [right; eauto|left; by right]. }
  - right. pose proof (Create_slow_path now freshID ctx s o key Hctx Hk) as H.
    destruct (buildOrder now freshID o) as [newOrder|] eqn:Hb.
    + right. split_and!; [done..|]. eauto.
    + left. by split_and!.
  - left. split_and!; [done..|]. exists orderID. split; [done|].
    destruct (orders s !! orderID) as [existing|] eqn:Ho.
    + left. exists existing. split; [done|]. apply Create_fast_path; [done..|].
      by eapply lookupIdempotent_hit.
    + right. split; [done|]. apply Create_fast_path; [done..|].
      by eapply lookupIdempotent_dangling.
Qed.

(** X8. Whenever Create returns an error, the store is exactly as before,
    the returned order is the zero order, reused is false, and the error is
    the context's error, ErrInvalidInput or ErrIdempotency: Create never
    reports ErrNotFound, ErrConflict or ErrInvalidState. *)
Theorem Create_failure_leaves_store now freshID ctx s o key err :
  createErr (Create now freshID ctx s o key) = Some err →
  createStore (Create now freshID ctx s o key) = s ∧
  createdOrder (Create now freshID ctx s o key) = zeroOrder ∧
  createReused (Create now freshID ctx s o key) = false ∧
  (err = ErrInvalidInput ∨ err = ErrIdempotency ∨ ∃ e, err = ErrContext e).
Proof.
  destruct (Create_cases now freshID ctx s o key)
    as [(e & _ & ->)|[(_ & _ & id & _ & [(ex & _ & ->)|(_ & ->)])
       |[(_ & _ & _ & ->)|(_ & _ & n & _ & ->)]]];
    unfold createErr, createStore, createdOrder, createReused; simpl;
    intros H; try discriminate; injection H as <-; split_and!; eauto.
Qed.

Lemma Create_failure_leaves_store_witness :
  createStore (Create 7 "n1" background sampleStore zeroQuantitySkeleton "k3")
    = sampleStore ∧
  createdOrder (Create 7 "n1" background sampleStore zeroQuantitySkeleton "k3")
    = zeroOrder ∧
  createReused (Create 7 "n1" background sampleStore zeroQuantitySkeleton "k3")
    = false ∧
  (ErrInvalidInput = ErrInvalidInput ∨ ErrInvalidInput = ErrIdempotency ∨
   ∃ e, ErrInvalidInput = ErrContext e).
Proof.
  apply (Create_failure_leaves_store 7 "n1" background sampleStore
           zeroQuantitySkeleton "k3" ErrInvalidInput).
  reflexivity.
Defined.

(** X9. Create reports reused = true only for a non-empty key that the
    index already maps to a stored order; it then returns that order with
    no error and leaves the store as it was.  A call without a key never
    reports a reuse. *)
Theorem Create_reused_means_indexed now freshID ctx s o key :
  createReused (Create now freshID ctx s o key) = true →
  key ≠ EmptyString ∧
  createErr (Create now freshID ctx s o key) = None ∧
  createStore (Create now freshID ctx s o key) = s ∧
  ∃ orderID, idempo s !! key = Some orderID ∧
    orders s !! orderID = Some (createdOrder (Create now freshID ctx s o key)).
Proof.
  destruct (Create_cases now freshID ctx s o key)
    as [(e & _ & ->)|[(_ & Hne & id & Hid & [(ex & Hex & ->)|(_ & ->)])
       |[(_ & _ & _ & ->)|(_ & _ & n & _ & ->)]]];
    unfold createErr, createStore, createdOrder, createReused; simpl;
    intros H; try discriminate.
  split_and!; eauto.
Qed.

Lemma Create_reused_means_indexed_witness :
  "k1" ≠ EmptyString ∧
  createErr (Create 7 "n1" background sampleStore zeroOrder "k1") = None ∧
  createStore (Create 7 "n1" background sampleStore zeroOrder "k1") = sampleStore ∧
  ∃ orderID, idempo sampleStore !! "k1" = Some orderID ∧
    orders sampleStore !! orderID
      = Some (createdOrder (Create 7 "n1" background sampleStore zeroOrder "k1")).
Proof.
  apply (Create_reused_means_indexed 7 "n1" background sampleStore zeroOrder "k1").
  reflexivity.
Defined.

(** X10. Validation is exact: with a live context and a key that is not in
    the index, Create returns no error exactly when the skeleton is valid
    (customer and currency non-empty, at least one line, every line with
    quantity > 0 and unit price >= 0). *)
Theorem Create_succeeds_iff_valid now freshID ctx s o key :
  ctxCause ctx = None →
  keyUnused s key →
  createErr (Create now freshID ctx s o key) = None ↔ validSkeleton o.
Proof.
  intros Hctx Hk. rewrite (Create_slow_path now freshID ctx s o key Hctx Hk).
  split.
  - destruct (buildOrder now freshID o) as [n|] eqn:Hb; [|done].
    intros _. by apply buildOrder_some in Hb as [Hv _].
  - intros Hv. by rewrite (buildOrder_valid _ _ _ Hv).
Qed.

Lemma Create_succeeds_iff_valid_witness :
  createErr (Create 7 "n1" background sampleStore sampleSkeleton "k3") = None
  ↔ validSkeleton sampleSkeleton.
Proof.
  apply (Create_succeeds_iff_valid 7 "n1" background sampleStore sampleSkeleton "k3").
  - reflexivity.
  - right. reflexivity.
Defined.

(** X11. A created order carries the caller's customer, currency and
    attributes (a nil map stays nil), has createdAt = updatedAt = the
    instant read from the clock, and is not deleted. *)
Theorem Create_copies_skeleton now freshID ctx s o key :
  ctxCause ctx = None →
  validSkeleton o →
  keyUnused s key →
  let ord := createdOrder (Create now freshID ctx s o key) in
  CustomerID ord = CustomerID o ∧ Currency ord = Currency o ∧
  Attributes ord = Attributes o ∧
  CreatedAt ord = now ∧ UpdatedAt ord = now ∧ DeletedAt ord = None.
Proof.
  intros Hctx Hv Hk.
  rewrite Create_slow_path, (buildOrder_valid _ _ _ Hv) by done.
  by split_and!.
Qed.

Lemma Create_copies_skeleton_witness :
  CustomerID (createdOrder (Create 7 "n1" background sampleStore sampleSkeleton "k3"))
    = CustomerID sampleSkeleton ∧
  Currency (createdOrder (Create 7 "n1" background sampleStore sampleSkeleton "k3"))
    = Currency sampleSkeleton ∧
  Attributes (createdOrder (Create 7 "n1" background sampleStore sampleSkeleton "k3"))
    = Attributes sampleSkeleton ∧
  CreatedAt (createdOrder (Create 7 "n1" background sampleStore sampleSkeleton "k3")) = 7 ∧
  UpdatedAt (createdOrder (Create 7 "n1" background sampleStore sampleSkeleton "k3")) = 7 ∧
  DeletedAt (createdOrder (Create 7 "n1" background sampleStore sampleSkeleton "k3")) = None.
Proof.
  apply (Create_copies_skeleton 7 "n1" background sampleStore sampleSkeleton "k3").
  - reflexivity.
  - unfold validSkeleton, validLine. simpl.
    split_and!; try discriminate. repeat constructor; simpl; lia.
  - right. reflexivity.
Defined.

(** ** Create composed with later calls *)

Lemma Create_new_store now freshID ctx s o key :
  ctxCause ctx = None →
  validSkeleton o →
  keyUnused s key →
  ∃ ord,
    DeletedAt ord = None ∧
    Create now freshID ctx s o key =
      ((ord, false, None),
       mkService (<[freshID := ord]> (orders s))
                 (if isEmpty key then idempo s else <[key := freshID]> (idempo s))).
Proof.
  intros Hctx Hv Hk.
  rewrite Create_slow_path, (buildOrder_valid _ _ _ Hv) by done.
  eexists. split; [|reflexivity]. reflexivity.
Qed.

(** X12. Insert then look up: after a successful creation, Get on the new
    id, with or without includeDeleted, returns the order that Create
    returned. *)
Theorem Create_then_Get now freshID ctx ctx' s o key includeDeleted :
  ctxCause ctx = None →
  ctxCause ctx' = None →
  validSkeleton o →
  keyUnused s key →
  Get ctx' (createStore (Create now freshID ctx s o key)) freshID includeDeleted
    = (createdOrder (Create now freshID ctx s o key), None).
Proof.
  intros Hctx Hctx' Hv Hk.
  destruct (Create_new_store now freshID ctx s o key Hctx Hv Hk) as (ord & Hdel & E).
  rewrite E. unfold createStore, createdOrder. simpl.
  unfold Get. rewrite (ctxErr_live _ Hctx'). simpl.
  rewrite lookup_insert_eq, Hdel. simpl. by rewrite cloneOrder_id.
Qed.

Lemma Create_then_Get_witness :
  Get background (createStore (Create 7 "n1" background sampleStore sampleSkeleton "k3"))
      "n1" false
    = (createdOrder (Create 7 "n1" background sampleStore sampleSkeleton "k3"), None).
Proof.
  apply (Create_then_Get 7 "n1" background background sampleStore sampleSkeleton
           "k3" false).
  - reflexivity.
  - reflexivity.
  - unfold validSkeleton, validLine. simpl.
    split_and!; try discriminate. repeat constructor; simpl; lia.
  - right. reflexivity.
Defined.

(** X13. Idempotent retry: after a successful creation under a non-empty
    key, any later Create with that key, whatever skeleton, clock reading
    and generated id it comes with, returns the first order with
    reused = true and no error, and leaves the store unchanged. *)
Theorem Create_idempotent_retry now freshID ctx s o key now' freshID' ctx' o' :
  ctxCause ctx = None →
  ctxCause ctx' = None →
  validSkeleton o →
  key ≠ EmptyString →
  idempo s !! key = None →
  Create now' freshID' ctx' (createStore (Create now freshID ctx s o key)) o' key
    = ((createdOrder (Create now freshID ctx s o key), true, None),
       createStore (Create now freshID ctx s o key)).
Proof.
  intros Hctx Hctx' Hv Hne Hk.
  destruct (Create_new_store now freshID ctx s o key Hctx Hv) as (ord & _ & E);
    [by right|].
  rewrite E. unfold createStore, createdOrder. simpl.
  apply isEmpty_false in Hne as Hne'. rewrite Hne'.
  apply Create_fast_path; [done..|].
  apply lookupIdempotent_hit with freshID; simpl; apply lookup_insert_eq.
Qed.

Lemma Create_idempotent_retry_witness :
  Create 9 "n2" background
         (createStore (Create 7 "n1" background sampleStore sampleSkeleton "k3"))
         zeroOrder "k3"
    = ((createdOrder (Create 7 "n1" background sampleStore sampleSkeleton "k3"),
        true, None),
       createStore (Create 7 "n1" background sampleStore sampleSkeleton "k3")).
Proof.
  apply (Create_idempotent_retry 7 "n1" background sampleStore sampleSkeleton "k3"
           9 "n2" background zeroOrder).
  - reflexivity.
  - reflexivity.
  - unfold validSkeleton, validLine. simpl.
    split_and!; try discriminate. repeat constructor; simpl; lia.
  - discriminate.
  - reflexivity.
Defined.

Lemma Create_store_cases now freshID ctx s o key :
  createStore (Create now freshID ctx s o key) = s ∨
  ∃ newOrder,
    buildOrder now freshID o = Some newOrder ∧
    keyUnused s key ∧
    createStore (Create now freshID ctx s o key) =
      mkService (<[freshID := newOrder]> (orders s))
                (if isEmpty key then idempo s else <[key := freshID]> (idempo s)).
Proof.
  destruct (Create_cases now freshID ctx s o key)
    as [(e & _ & ->)|[(_ & Hne & id & Hid & [(ex & Hex & ->)|(_ & ->)])
       |[(_ & _ & _ & ->)|(_ & Hk & n & Hb & ->)]]]; try by left.
  right. exists n. split_and!; [done..|].
  apply buildOrder_some in Hb as [_ ->]. done.
Qed.

(** X14. Whatever its outcome, a Create call touches at most the entry of
    the generated id in the primary table and the entry of its own key in
    the index: every other entry of both maps is as before, no stored
    order disappears, and an idempotency key that is already indexed keeps
    the id it maps to. *)
Theorem Create_preserves_others now freshID ctx s o key :
  let s' := createStore (Create now freshID ctx s o key) in
  (∀ id, id ≠ freshID → orders s' !! id = orders s !! id) ∧
  (∀ k, k ≠ key → idempo s' !! k = idempo s !! k) ∧
  (∀ id, is_Some (orders s !! id) → is_Some (orders s' !! id)) ∧
  (∀ k id, idempo s !! k = Some id → idempo s' !! k = Some id).
Proof.
  destruct (Create_store_cases now freshID ctx s o key) as [->|(n & _ & Hk & ->)];
    [done|]. simpl. split_and!.
  - intros id Hid. by rewrite lookup_insert_ne.
  - intros k Hne. destruct (isEmpty key); [done|]. by rewrite lookup_insert_ne.
  - intros id Hid. destruct (decide (freshID = id)) as [->|Hne].
    + rewrite lookup_insert_eq. eauto.
    + by rewrite lookup_insert_ne.
  - intros k id Hid. destruct (isEmpty key) eqn:E; [done|].
    destruct Hk as [->|Hk]; [done|].
    rewrite lookup_insert_ne; [done|]. intros <-. congruence.
Qed.

(** ** Invariants of the store *)

Lemma Create_keeps_index_consistent now freshID ctx s o key :
  indexConsistent s →
  indexConsistent (createStore (Create now freshID ctx s o key)).
Proof.
  intros Hs.
  destruct (Create_store_cases now freshID ctx s o key) as [->|(n & _ & Hk & ->)];
    [done|].
  intros k id. simpl. intros Hid.
  destruct (decide (freshID = id)) as [->|Hne]; [rewrite lookup_insert_eq; eauto|].
  rewrite lookup_insert_ne by done.
  destruct (isEmpty key); [by eapply Hs|].
  destruct (decide (key = k)) as [->|Hnk].
  - rewrite lookup_insert_eq in Hid. congruence.
  - rewrite lookup_insert_ne in Hid by done. by eapply Hs.
Qed.

Lemma buildOrder_well_formed now freshID o newOrder :
  buildOrder now freshID o = Some newOrder → wellFormedOrder freshID newOrder.
Proof.
  intros H. apply buildOrder_some in H as [(Hc & Hcu & Hl & Hv) ->].
  unfold wellFormedOrder. simpl. split_and!; try done.
  - by destruct (Lines o).
  - rewrite Forall_fmap. eapply Forall_impl; [exact Hv|]. by intros l Hl'.
Qed.

Lemma Create_keeps_well_formed now freshID ctx s o key :
  storeWellFormed s →
  storeWellFormed (createStore (Create now freshID ctx s o key)).
Proof.
  intros Hs.
  destruct (Create_store_cases now freshID ctx s o key) as [->|(n & Hb & _ & ->)];
    [done|].
  intros id ord. simpl. intros Hid.
  destruct (decide (freshID = id)) as [->|Hne].
  - rewrite lookup_insert_eq in Hid. injection Hid as <-.
    by eapply buildOrder_well_formed.
  - rewrite lookup_insert_ne in Hid by done. by apply Hs.
Qed.

Lemma reachable_invariants s :
  reachable s → indexConsistent s ∧ storeWellFormed s.
Proof.
  induction 1 as [|now freshID ctx s o key _ [IH1 IH2]|ctx s id st ev _ IH].
  - split; intros k v; simpl; by rewrite lookup_empty.
  - split; [by apply Create_keeps_index_consistent|by apply Create_keeps_well_formed].
  - done.
Qed.

Lemma oneOrderStore_reachable : reachable oneOrderStore.
Proof. apply reach_Create, reach_new. Qed.

(** X15. In every store reached from a new service, each indexed
    idempotency key resolves to a stored order, so no Create call on such a
    store returns ErrIdempotency. *)
Theorem reachable_index_consistent s :
  reachable s →
  indexConsistent s ∧
  ∀ now freshID ctx o key,
    createErr (Create now freshID ctx s o key) ≠ Some ErrIdempotency.
Proof.
  intros Hr. apply reachable_invariants in Hr as [Hidx _]. split; [done|].
  intros now freshID ctx o key.
  destruct (Create_cases now freshID ctx s o key)
    as [(e & _ & ->)|[(_ & Hne & id & Hid & [(ex & Hex & ->)|(Hno & ->)])
       |[(_ & _ & _ & ->)|(_ & _ & n & _ & ->)]]];
    unfold createErr; simpl; try done.
  destruct (Hidx _ _ Hid) as [x Hx]. congruence.
Qed.

Lemma reachable_index_consistent_witness :
  indexConsistent oneOrderStore ∧
  ∀ now freshID ctx o key,
    createErr (Create now freshID ctx oneOrderStore o key) ≠ Some ErrIdempotency.
Proof.
  apply (reachable_index_consistent oneOrderStore).
  apply reach_Create, reach_new.
Defined.

(** X16. In every store reached from a new service, each order is stored
    under its own id, has a non-empty customer, currency and line list,
    valid lines whose totals are the int64 products, totalCents equal to
    the int64 sum of the line totals, status PENDING, version 1,
    updatedAt = createdAt, and is not deleted. *)
Theorem reachable_orders_well_formed s id o :
  reachable s →
  orders s !! id = Some o →
  wellFormedOrder id o.
Proof.
  intros Hr Ho. apply reachable_invariants in Hr as [_ Hwf]. by apply Hwf.
Qed.

Lemma reachable_orders_well_formed_witness :
  wellFormedOrder "n1"
    (mkOrder "n1" "c1" "USD" [mkLine "p1" 2 500 1000] None 1000 StatusPending 1
             7 7 None).
Proof.
  apply (reachable_orders_well_formed oneOrderStore "n1").
  - apply reach_Create, reach_new.
  - vm_compute. reflexivity.
Defined.

(** ** Cancelled contexts *)

(** X7. With a context that is already cancelled or past its deadline,
    Create, Get and List return that context's error with a zero result,
    and Create leaves the store as it was. *)
Theorem cancelled_context_fails_fast rangeOrders sortSlice now freshID ctx s o key
    id includeDeleted opts e :
  ctxCause ctx = Some e →
  Create now freshID ctx s o key = ((zeroOrder, false, Some (ErrContext e)), s) ∧
  Get ctx s id includeDeleted = (zeroOrder, Some (ErrContext e)) ∧
  List rangeOrders sortSlice ctx s opts = Returned (zeroResult, Some (ErrContext e)).
Proof.
  intros H. split_and!.
  - by apply Create_cancelled.
  - by apply Get_cancelled.
  - by apply List_cancelled.
Qed.

Lemma cancelled_context_fails_fast_witness :
  Create 7 "n1" cancelled sampleStore sampleSkeleton "k3"
    = ((zeroOrder, false, Some (ErrContext Canceled)), sampleStore) ∧
  Get cancelled sampleStore "o1" true = (zeroOrder, Some (ErrContext Canceled)) ∧
  List rangeAscending insertionSort cancelled sampleStore (noFilter 1 10)
    = Returned (zeroResult, Some (ErrContext Canceled)).
Proof.
  apply (cancelled_context_fails_fast rangeAscending insertionSort 7 "n1" cancelled
           sampleStore sampleSkeleton "k3" "o1" true (noFilter 1 10) Canceled).
  reflexivity.
Defined.

(** ** Get *)



(** ** List: which orders are returned *)

(** Settles the two time bounds once the status and customer filters are
    decided. *)
Ltac settle_time_bounds opts :=
  destruct (optCreateFrom opts) as [f|], (optCreateTo opts) as [t|];
  repeat case_bool_decide; simpl;
  (split;
   [try done; intros _; split_and!; try done; intros ? [= <-]; (done || lia)
   |try done; intros (_ & _ & _ & H1 & H2);
    try (specialize (H1 _ eq_refl)); try (specialize (H2 _ eq_refl)); lia]).

Lemma listKeeps_matches opts o : listKeeps opts o = true ↔ matchesFilters opts o.
Proof.
  unfold listKeeps, matchesFilters, Before, After.
  destruct (DeletedAt o) as [d|]; simpl.
  { split; [done|]. by intros [? _]. }
  destruct (optStatus opts) as [st|]; simpl.
  - destruct (String.eqb_spec (Status o) st) as [E|E]; simpl.
    2:{ split; [done|]. intros (_ & H & _). by destruct E; apply H. }
    destruct (optCustomerID opts) as [c|]; simpl.
    + destruct (String.eqb_spec (CustomerID o) c) as [E'|E']; simpl.
      2:{ split; [done|]. intros (_ & _ & H & _). by destruct E'; apply H. }
      settle_time_bounds opts.
    + settle_time_bounds opts.
  - destruct (optCustomerID opts) as [c|]; simpl.
    + destruct (String.eqb_spec (CustomerID o) c) as [E'|E']; simpl.
      2:{ split; [done|]. intros (_ & _ & H & _). by destruct E'; apply H. }
      settle_time_bounds opts.
    + settle_time_bounds opts.
Qed.

Lemma List_filter_Permutation {A} (f : A → bool) l l' :
  l ≡ₚ l' → List.filter f l ≡ₚ List.filter f l'.
Proof.
  induction 1 as [|x l l' _ IH|x y l|l1 l2 l3 _ IH1 _ IH2]; simpl.
  - done.
  - destruct (f x); [by constructor|done].
  - destruct (f x), (f y); try done. apply Permutation_swap.
  - by etrans.
Qed.

Lemma storedOrders_elem s x :
  x ∈ storedOrders s ↔ ∃ id, orders s !! id = Some x.
Proof.
  unfold storedOrders. rewrite list_elem_of_fmap. split.
  - intros ([id y] & -> & H). apply elem_of_map_to_list in H. eauto.
  - intros [id H]. exists (id, x). split; [done|]. by apply elem_of_map_to_list.
Qed.

(** The slice that is sorted and paged is a rearrangement of the stored
    orders that pass the filter. *)
Lemma List_sorted_matches rangeOrders sortSlice s opts :
  RangeSpec rangeOrders →
  SortSliceSpec sortSlice →
  sortSlice createdAfter (List.filter (listKeeps opts) (rangeOrders (orders s)))
    ≡ₚ List.filter (listKeeps opts) (storedOrders s).
Proof.
  intros Hr Hs.
  destruct (Hs createdAfter (List.filter (listKeeps opts) (rangeOrders (orders s)))
              createdAfter_strict_weak) as [Hp _].
  etrans; [exact Hp|]. apply List_filter_Permutation, Hr.
Qed.

Lemma List_items_in_matches rangeOrders sortSlice ctx s opts x :
  RangeSpec rangeOrders →
  SortSliceSpec sortSlice →
  x ∈ listItems (List rangeOrders sortSlice ctx s opts) →
  x ∈ List.filter (listKeeps opts) (storedOrders s).
Proof.
  intros Hr Hs Hx.
  destruct (List_items rangeOrders sortSlice ctx s opts) as (i & n & E).
  rewrite E in Hx. apply subseteq_take, subseteq_drop in Hx.
  by rewrite (List_sorted_matches _ _ _ _ Hr Hs) in Hx.
Qed.

(** X18. Every order that List returns is stored in the primary table and
    passes every filter: it is not soft-deleted, has the requested status
    and customer when these are given, and its createdAt lies between the
    given bounds, both inclusive. *)
Theorem List_items_sound rangeOrders sortSlice ctx s opts x :
  RangeSpec rangeOrders →
  SortSliceSpec sortSlice →
  x ∈ listItems (List rangeOrders sortSlice ctx s opts) →
  (∃ id, orders s !! id = Some x) ∧ matchesFilters opts x.
Proof.
  intros Hr Hs Hx. apply List_items_in_matches in Hx; [|done..].
  apply list_elem_of_In, filter_In in Hx as [Hin Hk].
  split; [by apply storedOrders_elem, list_elem_of_In|by apply listKeeps_matches].
Qed.

Lemma List_items_sound_witness :
  (∃ id, orders tombstoneStore !! id = Some (storedOrder "o1" 100 None)) ∧
  matchesFilters (noFilter 1 10) (storedOrder "o1" 100 None).
Proof.
  apply (List_items_sound rangeAscending insertionSort background tombstoneStore
           (noFilter 1 10) (storedOrder "o1" 100 None)).
  - exact rangeAscending_spec.
  - exact insertionSort_spec.
  - vm_compute. left.
Defined.

Lemma paginate_total filtered opts r e :
  paginate filtered opts = Returned (r, e) →
  e = None ∧ TotalItems r = Z.of_nat (length filtered).
Proof.
  unfold paginate. destruct (_ >=? _); [by intros [= <- <-]|].
  destruct (_ || _); [done|]. by intros [= <- <-].
Qed.

(** X19. When List returns under a live context it returns no error, and
    totalItems is the number of stored orders that pass the filters,
    whatever page was asked for. *)
Theorem List_total_items rangeOrders sortSlice ctx s opts r e :
  RangeSpec rangeOrders →
  SortSliceSpec sortSlice →
  ctxCause ctx = None →
  List rangeOrders sortSlice ctx s opts = Returned (r, e) →
  e = None ∧
  TotalItems r = Z.of_nat (length (List.filter (listKeeps opts) (storedOrders s))).
Proof.
  intros Hr Hs Hctx. unfold List. rewrite (ctxErr_live _ Hctx).
  intros H. apply paginate_total in H as [-> ->]. split; [done|].
  by rewrite (List_sorted_matches _ _ _ _ Hr Hs).
Qed.

Lemma List_total_items_witness :
  (None : option error) = None ∧
  TotalItems (mkResult [] 0 0 1 0)
    = Z.of_nat (length (List.filter (listKeeps (noFilter 2 10))
                                    (storedOrders tombstoneStore))).
Proof.
  apply (List_total_items rangeAscending insertionSort background tombstoneStore
           (noFilter 2 10) (mkResult [] 0 0 1 0) None).
  - exact rangeAscending_spec.
  - exact insertionSort_spec.
  - reflexivity.
  - vm_compute. reflexivity.
Defined.

(** X23. A page whose window starts inside the matching orders, with
    totalItems + pageSize below 2^63: List returns the window of the sorted
    matches that starts at (page - 1) * pageSize and is pageSize long
    (shorter at the end of the data), together with the normalised page and
    page size, the number of matches and ceil(totalItems / pageSize). *)
Theorem List_page_window rangeOrders sortSlice ctx s opts :
  let sorted :=
    sortSlice createdAfter (List.filter (listKeeps opts) (rangeOrders (orders s))) in
  let n := Z.of_nat (length sorted) in
  let p := normPage (Page opts) in
  let ps := normPageSize (PageSize opts) in
  ctxCause ctx = None →
  (p - 1) * ps < n →
  n + ps < 2 ^ 63 →
  List rangeOrders sortSlice ctx s opts =
    Returned (mkResult (take (Z.to_nat ps) (drop (Z.to_nat ((p - 1) * ps)) sorted))
                       p ps n (ceilDiv n ps), None) ∧
  Z.of_nat (length (take (Z.to_nat ps) (drop (Z.to_nat ((p - 1) * ps)) sorted)))
    = Z.min ps (n - (p - 1) * ps).
Proof.
  intros sorted n p ps Hctx Hlt Hov. split.
  - unfold List. rewrite (ctxErr_live _ Hctx). by apply paginate_within_range.
  - pose proof (normPage_pos (Page opts)). pose proof (normPageSize_pos (PageSize opts)).
    rewrite length_take, length_drop. unfold n, p, ps in *. nia.
Qed.

Lemma List_page_window_witness :
  List rangeAscending insertionSort background tieStore (noFilter 2 1) =
    Returned (mkResult [storedOrder "b" 100 None] 2 1 2 2, None) ∧
  Z.of_nat (length [storedOrder "b" 100 None]) = Z.min 1 (2 - (2 - 1) * 1).
Proof.
  apply (List_page_window rangeAscending insertionSort background tieStore
           (noFilter 2 1)).
  - reflexivity.
  - vm_compute. reflexivity.
  - vm_compute. reflexivity.
Defined.

(** X20. The first page is complete when it is large enough: with page 1
    (or a non-positive page) and a page size that is at least the number of
    matching orders, List returns every stored order that passes the
    filters, each once. *)
Theorem List_first_page_complete rangeOrders sortSlice ctx s opts :
  let matches := List.filter (listKeeps opts) (storedOrders s) in
  RangeSpec rangeOrders →
  SortSliceSpec sortSlice →
  ctxCause ctx = None →
  Page opts ≤ 1 →
  Z.of_nat (length matches) ≤ normPageSize (PageSize opts) →
  Z.of_nat (length matches) + normPageSize (PageSize opts) < 2 ^ 63 →
  listItems (List rangeOrders sortSlice ctx s opts) ≡ₚ matches.
Proof.
  intros matches Hr Hs Hctx Hp Hn Hov.
  pose proof (List_sorted_matches _ _ s opts Hr Hs) as Hperm. fold matches in Hperm.
  unfold List. rewrite (ctxErr_live _ Hctx).
  set (sorted := sortSlice createdAfter _) in *. clearbody sorted.
  assert (length sorted = length matches) as Hlen by by rewrite Hperm.
  assert (normPage (Page opts) = 1) as Hp1.
  { unfold normPage. destruct (Page opts <=? 0) eqn:E; lia. }
  destruct (decide (length sorted = 0%nat)) as [Hz|Hnz].
  - destruct sorted; [|done]. rewrite <- Hperm.
    rewrite paginate_beyond_range; [done|]. rewrite Hp1. simpl. lia.
  - rewrite paginate_within_range; [|rewrite Hp1; lia|lia].
    rewrite Hp1. replace ((1 - 1) * normPageSize (PageSize opts)) with 0 by lia.
    change (Z.to_nat 0) with 0%nat. rewrite drop_0, take_ge by lia. done.
Qed.

Lemma List_first_page_complete_witness :
  listItems (List rangeDescending insertionSort background tombstoneStore
                  (noFilter 0 0))
    ≡ₚ List.filter (listKeeps (noFilter 0 0)) (storedOrders tombstoneStore).
Proof.
  apply (List_first_page_complete rangeDescending insertionSort background
           tombstoneStore (noFilter 0 0)).
  - exact rangeDescending_spec.
  - exact insertionSort_spec.
  - reflexivity.
  - simpl. lia.
  - vm_compute. discriminate.
  - vm_compute. reflexivity.
Defined.

(** ** List: the window arithmetic *)

Lemma int64_wrap_high z :
  2 ^ 63 ≤ z < 2 ^ 63 + 2 ^ 64 → int64_wrap z = z - 2 ^ 64.
Proof.
  intros H. unfold int64_wrap.
  replace (z + 2 ^ 63) with ((z - 2 ^ 63) + 1 * 2 ^ 64) by lia.
  rewrite Z_mod_plus_full, Z.mod_small; lia.
Qed.

Lemma normPageSize_range ps :
  int64_range ps → 0 < normPageSize ps < 2 ^ 63.
Proof.
  unfold int64_range, normPageSize. destruct (ps <=? 0) eqn:E; lia.
Qed.

Lemma windowStart_range opts : int64_range (windowStart opts).
Proof. apply int64_wrap_range. Qed.

(** How paginate ends, by where the window starts. *)
Lemma paginate_cases filtered opts :
  let n := Z.of_nat (length filtered) in
  let ps := normPageSize (PageSize opts) in
  let start := windowStart opts in
  int64_range (PageSize opts) →
  (n ≤ start ∧ paginate filtered opts = Returned (mkResult [] 0 0 n 0, None)) ∨
  (start < n ∧ (start < 0 ∨ 2 ^ 63 ≤ start + ps) ∧ paginate filtered opts = Panicked) ∨
  (0 ≤ start < n ∧ start + ps < 2 ^ 63 ∧
   ∃ r, paginate filtered opts = Returned (r, None) ∧
        Items r = take (Z.to_nat (Z.min (start + ps) n - start))
                       (drop (Z.to_nat start) filtered)).
Proof.
  intros n ps start Hps. apply normPageSize_range in Hps. fold ps in Hps.
  pose proof (windowStart_range opts) as Hst. fold start in Hst.
  unfold int64_range in Hst.
  assert (0 ≤ n) as Hn by (unfold n; lia).
  unfold paginate.
  change (int_wrap ((normPage (Page opts) - 1) * normPageSize (PageSize opts)))
    with start.
  change (normPageSize (PageSize opts)) with ps.
  change (Z.of_nat (length filtered)) with n.
  clearbody start n ps.
  destruct (start >=? n) eqn:E1; [left; split; [lia|done]|]. right.
  destruct (decide (start < 0)) as [Hneg|Hpos].
  { left. split_and!; [lia|by left|].
    replace (start <? 0) with true by (symmetry; apply Z.ltb_lt; lia). done. }
  replace (start <? 0) with false by (symmetry; apply Z.ltb_ge; lia).
  rewrite orb_false_l. unfold int_wrap.
  destruct (decide (start + ps < 2 ^ 63)) as [Hfit|Hbig].
  - right. rewrite (int64_wrap_id (start + ps)) by (unfold int64_range; lia).
    split_and!; [lia..|].
    destruct (start + ps >? n) eqn:E2.
    + replace (n <? start) with false by (symmetry; apply Z.ltb_ge; lia).
      eexists. split; [reflexivity|]. simpl. rewrite map_cloneOrder.
      by replace (Z.min (start + ps) n) with n by lia.
    + replace (start + ps <? start) with false by (symmetry; apply Z.ltb_ge; lia).
      eexists. split; [reflexivity|]. simpl. rewrite map_cloneOrder.
      by replace (Z.min (start + ps) n) with (start + ps) by lia.
  - left. rewrite (int64_wrap_high (start + ps)) by lia.
    split_and!; [lia|right; lia|].
    destruct (start + ps - 2 ^ 64 >? n) eqn:E2; [lia|].
    destruct (start + ps - 2 ^ 64 <? start) eqn:E3; [done|lia].
Qed.

(** X22. When List panics: for a page size that fits an int, and under a
    live context, List panics (a slice expression out of range) exactly
    when the wrapped product (page - 1) * pageSize is negative, or is below
    the number of matching orders while start + pageSize reaches 2^63.  In
    every other case it returns. *)
Theorem List_panics_iff rangeOrders sortSlice ctx s opts :
  let sorted :=
    sortSlice createdAfter (List.filter (listKeeps opts) (rangeOrders (orders s))) in
  let n := Z.of_nat (length sorted) in
  let ps := normPageSize (PageSize opts) in
  let start := windowStart opts in
  int64_range (PageSize opts) →
  List rangeOrders sortSlice ctx s opts = Panicked ↔
    ctxCause ctx = None ∧ (start < 0 ∨ (start < n ∧ 2 ^ 63 ≤ start + ps)).
Proof.
  intros sorted n ps start Hps. unfold List.
  destruct (ctxCause ctx) as [e|] eqn:Hctx.
  { rewrite (ctxErr_done _ _ Hctx). split; [done|]. by intros [? _]. }
  rewrite (ctxErr_live _ Hctx). fold sorted.
  pose proof (windowStart_range opts) as Hst. unfold int64_range in Hst.
  unfold n, ps, start.
  destruct (paginate_cases sorted opts Hps)
    as [[H1 ->]|[(H1 & H2 & ->)|(H1 & H2 & r & -> & _)]].
  - split; [done|]. intros [_ [H|[H _]]]; lia.
  - split; [|done]. intros _. split; [done|]. destruct H2; [by left|right; lia].
  - split; [done|]. intros [_ [H|[_ H]]]; lia.
Qed.

Lemma List_panics_iff_witness :
  List rangeAscending insertionSort background sampleStore
       (noFilter 3 9223372036854775807) = Panicked.
Proof.
  apply (List_panics_iff rangeAscending insertionSort background sampleStore
           (noFilter 3 9223372036854775807)).
  - unfold int64_range. simpl. lia.
  - split; [reflexivity|]. left. vm_compute. reflexivity.
Defined.

(** X21. A page is never longer than the page size: for a page size that
    fits an int, the number of items List returns is at most the normalised
    page size, also when the window arithmetic wraps around. *)
Theorem List_page_length rangeOrders sortSlice ctx s opts :
  int64_range (PageSize opts) →
  Z.of_nat (length (listItems (List rangeOrders sortSlice ctx s opts)))
    ≤ normPageSize (PageSize opts).
Proof.
  intros Hps. pose proof (normPageSize_range _ Hps) as Hpos.
  unfold List. destruct (ctxErr ctx); [simpl; lia|].
  set (sorted := sortSlice createdAfter _).
  destruct (paginate_cases sorted opts Hps)
    as [[_ ->]|[(_ & _ & ->)|(H1 & H2 & r & -> & E)]]; [simpl; lia..|].
  simpl. rewrite E, length_take. lia.
Qed.

Lemma List_page_length_witness :
  Z.of_nat (length (listItems (List rangeAscending insertionSort background tieStore
                                    (noFilter 1 1))))
    ≤ normPageSize (PageSize (noFilter 1 1)).
Proof.
  apply (List_page_length rangeAscending insertionSort background tieStore
           (noFilter 1 1)).
  unfold int64_range. simpl. lia.
Defined.

(** ** List composed with Get *)

(** X24. In a store reached from a new service, every order that List
    returns can be fetched: Get on its id, under a live context and with
    either value of includeDeleted, returns that same order. *)
Theorem List_items_gettable rangeOrders sortSlice ctx ctx' s opts x includeDeleted :
  reachable s →
  RangeSpec rangeOrders →
  SortSliceSpec sortSlice →
  ctxCause ctx' = None →
  x ∈ listItems (List rangeOrders sortSlice ctx s opts) →
  Get ctx' s (ID x) includeDeleted = (x, None).
Proof.
  intros Hreach Hr Hs Hctx' Hx.
  apply reachable_invariants in Hreach as [_ Hwf].
  apply List_items_in_matches in Hx; [|done..].
  apply list_elem_of_In, filter_In in Hx as [Hin Hk].
  apply list_elem_of_In, storedOrders_elem in Hin as [id Hid].
  destruct (Hwf _ _ Hid) as (<- & _). apply listKeeps_live in Hk.
  unfold Get. rewrite (ctxErr_live _ Hctx'), Hid, Hk. simpl.
  by rewrite cloneOrder_id.
Qed.

Lemma List_items_gettable_witness :
  Get background oneOrderStore
      (ID (mkOrder "n1" "c1" "USD" [mkLine "p1" 2 500 1000] None 1000
                   StatusPending 1 7 7 None)) false
    = (mkOrder "n1" "c1" "USD" [mkLine "p1" 2 500 1000] None 1000
               StatusPending 1 7 7 None, None).
Proof.
  apply (List_items_gettable rangeAscending insertionSort background background
           oneOrderStore (noFilter 1 10)).
  - apply reach_Create, reach_new.
  - exact rangeAscending_spec.
  - exact insertionSort_spec.
  - reflexivity.
  - vm_compute. left.
Defined.

(** ** A new service *)

(** X25. A new service holds nothing: under a live context every Get
    fails with ErrNotFound, List returns no items for any options, and no
    Create call reports a reuse or an idempotency error. *)
Theorem new_service_is_empty rangeOrders sortSlice ctx :
  RangeSpec rangeOrders →
  SortSliceSpec sortSlice →
  ctxCause ctx = None →
  (∀ id includeDeleted,
     Get ctx NewInMemoryService id includeDeleted = (zeroOrder, Some ErrNotFound)) ∧
  (∀ opts, listItems (List rangeOrders sortSlice ctx NewInMemoryService opts) = []) ∧
  (∀ now freshID o key,
     createReused (Create now freshID ctx NewInMemoryService o key) = false ∧
     createErr (Create now freshID ctx NewInMemoryService o key) ≠ Some ErrIdempotency).
Proof.
  intros Hr Hs Hctx. split_and!.
  - intros id incl. unfold Get. rewrite (ctxErr_live _ Hctx). simpl.
    by rewrite lookup_empty.
  - intros opts.
    destruct (listItems (List rangeOrders sortSlice ctx NewInMemoryService opts))
      as [|x l] eqn:E; [done|].
    assert (x ∈ listItems (List rangeOrders sortSlice ctx NewInMemoryService opts))
      as Hx by (rewrite E; left).
    apply List_items_in_matches in Hx; [|done..].
    apply list_elem_of_In, filter_In in Hx as [Hin _].
    apply list_elem_of_In, storedOrders_elem in Hin as [id Hid].
    simpl in Hid. by rewrite lookup_empty in Hid.
  - intros now freshID o key.
    rewrite (Create_slow_path now freshID ctx NewInMemoryService o key Hctx).
    + unfold createReused, createErr. by destruct (buildOrder now freshID o).
    + right. simpl. apply lookup_empty.
Qed.

Lemma new_service_is_empty_witness :
  (∀ id includeDeleted,
     Get background NewInMemoryService id includeDeleted
       = (zeroOrder, Some ErrNotFound)) ∧
  (∀ opts, listItems (List rangeAscending insertionSort background
                           NewInMemoryService opts) = []) ∧
  (∀ now freshID o key,
     createReused (Create now freshID background NewInMemoryService o key) = false ∧
     createErr (Create now freshID background NewInMemoryService o key)
       ≠ Some ErrIdempotency).
Proof.
  apply (new_service_is_empty rangeAscending insertionSort background).
  - exact rangeAscending_spec.
  - exact insertionSort_spec.
  - reflexivity.
Defined.

(** ** The transition predicate *)

(** X4. isTransitionAllowed is true exactly on the five edges
    PENDING to CONFIRMED, PENDING to CANCELED, CONFIRMED to SHIPPED,
    CONFIRMED to CANCELED and SHIPPED to DELIVERED; from DELIVERED, from
    CANCELED and from any string that is not a status it is false for every
    target. *)
Theorem isTransitionAllowed_exact from to :
  (isTransitionAllowed from to = true ↔ allowedEdge from to) ∧
  (from ≠ StatusPending → from ≠ StatusConfirmed → from ≠ StatusShipped →
   isTransitionAllowed from to = false).
Proof.
  split; [apply isTransitionAllowed_edges|].
  intros H1 H2 H3. apply not_true_is_false. rewrite isTransitionAllowed_edges.
  intros [[? _]|[[? _]|[[? _]|[[? _]|[? _]]]]]; done.
Qed.

Lemma isTransitionAllowed_exact_witness :
  (isTransitionAllowed StatusDelivered StatusPending = true
     ↔ allowedEdge StatusDelivered StatusPending) ∧
  isTransitionAllowed StatusDelivered StatusPending = false.
Proof.
  split.
  - apply (isTransitionAllowed_exact StatusDelivered StatusPending).
  - apply (isTransitionAllowed_exact StatusDelivered StatusPending); discriminate.
Defined.
